(** * The message pipeline of the agent: validation, rate limiting, retrying,
      queueing, action dispatch and the memory store.

    The definitions below embed the JavaScript/TypeScript sources function by
    function.  Mutable fields become explicit state, [throw] becomes the
    [Threw] outcome, and everything the code obtains from outside
    ([Date.now()], the wrapped operation, the key-value binding) is an
    explicit input of the model. *)

From Stdlib Require Import ZArith NArith List String Ascii Bool Lia.
From stdpp Require Import base option list strings gmap.

Local Open Scope Z_scope.
Set Warnings "-register-all".

(** ** JavaScript values, strings and completions *)

Module Js.

(** A JavaScript string is a sequence of UTF-16 code units. *)
Abbreviation jsstring := (list N).

(** The code units of an ASCII literal of the source. *)
Definition lit (s : string) : jsstring :=
  map N_of_ascii (list_ascii_of_string s).

(** The values a field of a webhook payload can hold.  An object is kept as
    an opaque reference. *)
Inductive JsValue : Type :=
| JsUndefined
| JsNull
| JsBool (b : bool)
| JsNumber (n : Z)
| JsString (s : jsstring)
| JsObject (ref : N).

(** [ToBoolean]: what [!v] and [v && ...] test. *)
Definition truthy (v : JsValue) : bool :=
  match v with
  | JsUndefined | JsNull => false
  | JsBool b => b
  | JsNumber n => negb (n =? 0)
  | JsString s => match s with [] => false | _ :: _ => true end
  | JsObject _ => true
  end.

(** [typeof v === 'string'] *)
Definition isString (v : JsValue) : bool :=
  match v with JsString _ => true | _ => false end.

(** [error.response], as far as [shouldRetry] looks at it. *)
Record Response : Type := { status : Z }.

(** A thrown [Error] object: [name] and [message] are strings, as they are
    for every instance of [Error]; [response] is set by HTTP clients. *)
Record Error : Type := {
  error_name : string;
  error_message : string;
  error_response : option Response
}.

(** [new Error(msg)] *)
Definition newError (msg : string) : Error :=
  {| error_name := "Error"; error_message := msg; error_response := None |}.

(** [new TypeError(msg)], raised by the engine itself. *)
Definition newTypeError (msg : string) : Error :=
  {| error_name := "TypeError"; error_message := msg; error_response := None |}.

(** How a call ends: with a value, or with a thrown error (for an [async]
    function: a fulfilled or a rejected promise). *)
Inductive Res (A : Type) : Type :=
| Returned (a : A)
| Threw (e : Error).
Arguments Returned {A} a.
Arguments Threw {A} e.

(** White space and line terminators, the code units [String.prototype.trim]
    strips: TAB, LF, VT, FF, CR, SP, NBSP, U+1680, U+2000..U+200A, U+2028,
    U+2029, U+202F, U+205F, U+3000 and U+FEFF. *)
Definition isWhiteSpace (c : N) : bool :=
  ((9 <=? c) && (c <=? 13) || (c =? 32) || (c =? 160) || (c =? 5760)
   || (8192 <=? c) && (c <=? 8202) || (c =? 8232) || (c =? 8233)
   || (c =? 8239) || (c =? 8287) || (c =? 12288) || (c =? 65279))%N.

Fixpoint trimStart (s : jsstring) : jsstring :=
  match s with
  | [] => []
  | c :: s' => if isWhiteSpace c then trimStart s' else s
  end.

Definition trimEnd (s : jsstring) : jsstring := rev (trimStart (rev s)).

(** [s.trim()] *)
Definition trim (s : jsstring) : jsstring := trimEnd (trimStart s).

(** [s.slice(0, n)] for [n >= 0]. *)
Definition slice0 (n : nat) (s : jsstring) : jsstring := take n s.

(** [s.startsWith(p)] on Rocq strings (names and messages of errors). *)
Fixpoint startsWith (p s : string) : bool :=
  match p, s with
  | EmptyString, _ => true
  | String a p', String b s' => if Ascii.eqb a b then startsWith p' s' else false
  | String _ _, EmptyString => false
  end.

(** [s.includes(p)] *)
Fixpoint includes (s p : string) : bool :=
  startsWith p s ||
  match s with
  | EmptyString => false
  | String _ s' => includes s' p
  end.

(** State-and-exception computations: a method that reads and writes the
    fields [S] of its object and either returns or throws. *)
Definition M (S A : Type) : Type := S -> Res A * S.

Definition ret {S A : Type} (a : A) : M S A := fun s => (Returned a, s).

Definition bind {S A B : Type} (c : M S A) (k : A -> M S B) : M S B :=
  fun s =>
    match c s with
    | (Returned a, s') => k a s'
    | (Threw e, s') => (Threw e, s')
    end.

Definition throw {S A : Type} (e : Error) : M S A := fun s => (Threw e, s).

(** [try { body } catch (error) { handler }] *)
Definition tryCatch {S A : Type} (body : M S A) (handler : Error -> M S A)
    : M S A :=
  fun s =>
    match body s with
    | (Returned a, s') => (Returned a, s')
    | (Threw e, s') => handler e s'
    end.

(** [try { body } finally { final }], for a [final] that cannot throw. *)
Definition tryFinally {S A : Type} (body : M S A) (final : S -> S) : M S A :=
  fun s => let (r, s') := body s in (r, final s').

Declare Scope js_scope.
Delimit Scope js_scope with js.
Notation "'let*' x := c 'in' k" := (bind c (fun x => k))
  (at level 10, x name, c at level 100, k at level 200) : js_scope.
Notation "c >> k" := (bind c (fun _ => k))
  (at level 65, right associativity) : js_scope.

End Js.

Import Js.
Local Open Scope js_scope.

(** ** Messages and action results *)

(** [message.author] *)
Module Author.
Record t : Type := {
  id : JsValue;
  username : JsValue
}.
End Author.

(** An inbound message as the webhook delivers it.  [author] is [None] when
    [message.author] is falsy. *)
Module Message.
Record t : Type := {
  platform : JsValue;
  text : JsValue;
  author : option Author.t;
  raw : JsValue
}.

(** [message.text = v] *)
Definition set_text (message : t) (v : JsValue) : t :=
  {| platform := platform message; text := v;
     author := author message; raw := raw message |}.
End Message.

(** What an action, or the processing of a message, returns.  [context] and
    [embeds] are [None] when the property is not set. *)
Module ActionResult.
Record t : Type := {
  text : jsstring;
  shouldSendMessage : bool;
  context : option jsstring;
  embeds : option JsValue
}.
End ActionResult.

(** ** The enhanced agent: validation, rate limiter, retry executor, queue *)

Module Agent.

(** The character class of [/[\\<>]/g]: backslash, [<] and [>]. *)
Definition harmful (c : N) : bool := ((c =? 92) || (c =? 60) || (c =? 62))%N.

(** [text.trim().replace(/[\\<>]/g, '').slice(0, 2000)] *)
Definition sanitize (s : jsstring) : jsstring :=
  slice0 2000 (filter (fun c => harmful c = false) (trim s)).

(** [validateMessage]: throws on an invalid message, otherwise overwrites
    [message.text]; the message returned is the message after the call. *)
Definition validateMessage (message : Message.t) : Res Message.t :=
  if negb (truthy (Message.platform message)) then
    Threw (newError "Message must have a platform")
  else if negb (truthy (Message.text message))
          || negb (isString (Message.text message)) then
    Threw (newError "Message must have valid text content")
  else if match Message.author message with
          | None => true
          | Some a => negb (truthy (Author.username a))
          end then
    Threw (newError "Message must have an author with a username")
  else
    match Message.text message with
    | JsString s => Returned (Message.set_text message (JsString (sanitize s)))
    | _ => Threw (newTypeError "message.text.trim is not a function")
    end.

Record RateLimitConfig : Type := {
  maxRequests : Z;
  timeWindow : Z
}.

Record RetryConfig : Type := {
  maxRetries : nat;
  baseDelay : Z;
  maxDelay : Z
}.

Definition RATE_LIMIT_CONFIG : RateLimitConfig :=
  {| maxRequests := 50; timeWindow := 60000 |}.

Definition RETRY_CONFIG : RetryConfig :=
  {| maxRetries := 3; baseDelay := 1000; maxDelay := 5000 |}.

(** An entry of [rateLimits]. *)
Record RateLimitWindow : Type := {
  count : Z;
  resetTime : Z
}.

(** [checkRateLimit(key)], with the value [now] of [Date.now()] and the map
    [rateLimits] passed in; returns the answer and the map after the call. *)
Definition checkRateLimit (now : Z) (key : string)
    (rateLimits : gmap string RateLimitWindow)
    : bool * gmap string RateLimitWindow :=
  let fresh :=
    {| count := 1; resetTime := now + timeWindow RATE_LIMIT_CONFIG |} in
  match rateLimits !! key with
  | None => (true, <[key := fresh]> rateLimits)
  | Some limit =>
      if now >? resetTime limit then (true, <[key := fresh]> rateLimits)
      else if count limit >=? maxRequests RATE_LIMIT_CONFIG then
        (false, rateLimits)
      else
        (true, <[key := {| count := count limit + 1;
                           resetTime := resetTime limit |}]> rateLimits)
  end.

(** [shouldRetry(error)] *)
Definition shouldRetry (error : Error) : bool :=
  String.eqb (error_name error) "NetworkError"
  || includes (error_message error) "rate limit"
  || match error_response error with
     | Some response => existsb (Z.eqb (status response)) [429; 503; 502]
     | None => false
     end.

(** One entry per iteration of the loop of [withRetry]: the value of
    [attempt] in that iteration, what happened, and the delay handed to
    [setTimeout] where the iteration sleeps. *)
Inductive Attempt : Type :=
| Rejected (attempt : nat) (waitTime : Z)
| Succeeded (attempt : nat)
| GaveUp (attempt : nat) (error : Error)
| BackedOff (attempt : nat) (error : Error) (waitTime : Z).

(** The value of [attempt] an entry was written at. *)
Definition attemptOf (entry : Attempt) : nat :=
  match entry with
  | Rejected attempt _ | Succeeded attempt
  | GaveUp attempt _ | BackedOff attempt _ _ => attempt
  end.

(** Entries of iterations in which the rate limiter refused. *)
Definition isRejected (entry : Attempt) : bool :=
  match entry with Rejected _ _ => true | _ => false end.

Definition rejections (entries : list Attempt) : nat :=
  length (List.filter isRejected entries).

(** What [withRetry] reads and writes.  [clock k] is the value of the [k]-th
    call of [Date.now()], [ticks] counts those calls, [invocations] counts
    the calls of the wrapped operation, [journal] lists the iterations. *)
Record World : Type := {
  rateLimits : gmap string RateLimitWindow;
  clock : nat -> Z;
  ticks : nat;
  invocations : nat;
  journal : list Attempt
}.

(** A call at time [now] finds no window for [key], or one whose
    [resetTime] has passed. *)
Definition freshAt (key : string) (now : Z)
    (limits : gmap string RateLimitWindow) : Prop :=
  limits !! key = None
  \/ exists w, limits !! key = Some w /\ now > resetTime w.

(** Consecutive calls of [checkRateLimit(key)], made at the times [nows]:
    the answers in order, and the map after the last call. *)
Fixpoint checkRateLimits (nows : list Z) (key : string)
    (rateLimits : gmap string RateLimitWindow)
    : list bool * gmap string RateLimitWindow :=
  match nows with
  | [] => ([], rateLimits)
  | now :: later =>
      let (answer, limits) := checkRateLimit now key rateLimits in
      let (answers, limits') := checkRateLimits later key limits in
      (answer :: answers, limits')
  end.

(** [this.checkRateLimit(key)] on the world: one reading of the clock. *)
Definition checkRateLimitNow (key : string) (w : World) : bool * World :=
  let (admitted, limits) := checkRateLimit (clock w (ticks w)) key (rateLimits w) in
  (admitted,
   {| rateLimits := limits; clock := clock w; ticks := S (ticks w);
      invocations := invocations w; journal := journal w |}).

(** [await operation()]: the outcome of the operation is a function of how
    often it has been invoked before. *)
Definition invoke {T : Type} (operation : nat -> Res T) (w : World)
    : Res T * World :=
  (operation (invocations w),
   {| rateLimits := rateLimits w; clock := clock w; ticks := ticks w;
      invocations := S (invocations w); journal := journal w |}).

Definition record (a : Attempt) (w : World) : World :=
  {| rateLimits := rateLimits w; clock := clock w; ticks := ticks w;
     invocations := invocations w; journal := journal w ++ [a] |}.

(** [Math.min(maxDelay, baseDelay * Math.pow(2, attempt))] *)
Definition waitTime (attempt : nat) : Z :=
  Z.min (maxDelay RETRY_CONFIG) (baseDelay RETRY_CONFIG * 2 ^ Z.of_nat attempt).

(** The [for] loop of [withRetry], entered with [attempt] and with
    [remaining = maxRetries - attempt] iterations left.  [continue] and the
    end of the [catch] block both lead to [attempt++]. *)
Fixpoint withRetryFrom {T : Type} (operation : nat -> Res T) (key : string)
    (remaining attempt : nat) (lastError : option Error) (w : World)
    : Res T * World :=
  match remaining with
  | O =>
      (Threw (default (newError "Operation failed after all retries") lastError), w)
  | S remaining' =>
      let (admitted, w1) := checkRateLimitNow key w in
      if negb admitted then
        withRetryFrom operation key remaining' (S attempt) lastError
          (record (Rejected attempt (waitTime attempt)) w1)
      else
        match invoke operation w1 with
        | (Returned v, w2) => (Returned v, record (Succeeded attempt) w2)
        | (Threw error, w2) =>
            if negb (shouldRetry error) then
              (Threw error, record (GaveUp attempt error) w2)
            else
              withRetryFrom operation key remaining' (S attempt) (Some error)
                (record (BackedOff attempt error (waitTime attempt)) w2)
        end
  end.

(** [withRetry(operation, key)] *)
Definition withRetry {T : Type} (operation : nat -> Res T) (key : string)
    (w : World) : Res T * World :=
  withRetryFrom operation key (maxRetries RETRY_CONFIG) 0 None w.

(** The next [n] calls of [checkRateLimit(key)] all admit. *)
Fixpoint admits (n : nat) (key : string) (w : World) : bool :=
  match n with
  | O => true
  | S n' => let (admitted, w') := checkRateLimitNow key w in
            admitted && admits n' key w'
  end.

(** *** The message queue

    [processMessageInternal] is a parameter: any method that, given a
    message, reads and writes the rest of the agent ([Env]: clients, memory,
    cache, rate limits) and returns a result or throws.  It does not touch
    [messageQueue] or [processingQueue]. *)

Section Queue.

Variable Env : Type.
Variable processMessageInternal : Message.t -> M Env ActionResult.t.

(** The fields of the agent the queue code uses.  [incoming] is the
    schedule of the other callers: its [k]-th element lists the messages
    with which [processMessage] is called while the [k]-th coming
    [await this.processMessageInternal(...)] is pending.  [drained] lists,
    in order, the messages handed to [processMessageInternal] and how each
    ended. *)
Record Processor : Type := {
  messageQueue : list Message.t;
  processingQueue : bool;
  env : Env;
  incoming : list (list Message.t);
  drained : list (Message.t * Res ActionResult.t)
}.

Definition set_messageQueue (q : list Message.t) (p : Processor) : Processor :=
  {| messageQueue := q; processingQueue := processingQueue p; env := env p;
     incoming := incoming p; drained := drained p |}.

Definition set_processingQueue (b : bool) (p : Processor) : Processor :=
  {| messageQueue := messageQueue p; processingQueue := b; env := env p;
     incoming := incoming p; drained := drained p |}.

(** The first two statements of [processMessage]:
    [this.validateMessage(message); this.messageQueue.push(message)]. *)
Definition enqueue (message : Message.t) : M Processor unit :=
  fun p =>
    match validateMessage message with
    | Threw e => (Threw e, p)
    | Returned message' =>
        (Returned tt, set_messageQueue (messageQueue p ++ [message']) p)
    end.

(** The acknowledgment [processMessage] returns while a drain is running. *)
Definition queued : ActionResult.t :=
  {| ActionResult.text := lit "Message queued for processing";
     ActionResult.shouldSendMessage := false;
     ActionResult.context := None; ActionResult.embeds := None |}.

(** A call of [processMessage] that runs while a drain is suspended: it
    finds [processingQueue] set, so it validates, pushes and returns (the
    acknowledgment, or the validation error, goes to its own caller). *)
Definition arrive (p : Processor) (message : Message.t) : Processor :=
  snd (enqueue message p).

(** The messages among [messages] that [validateMessage] accepts, as it
    leaves them. *)
Fixpoint admitted (messages : list Message.t) : list Message.t :=
  match messages with
  | [] => []
  | message :: later =>
      match validateMessage message with
      | Returned message' => message' :: admitted later
      | Threw _ => admitted later
      end
  end.

(** [processMessageInternal] run on [messages] one after the other, each
    paired with how it ended. *)
Fixpoint replay (messages : list Message.t) (e : Env)
    : list (Message.t * Res ActionResult.t) * Env :=
  match messages with
  | [] => ([], e)
  | message :: later =>
      let (r, e') := processMessageInternal message e in
      let (log, e'') := replay later e' in
      ((message, r) :: log, e'')
  end.

(** [await this.processMessageInternal(message)]: the call itself, and the
    calls of [processMessage] by others that run meanwhile. *)
Definition awaitInternal (message : Message.t) : M Processor ActionResult.t :=
  fun p =>
    let (r, env') := processMessageInternal message (env p) in
    let p' :=
      {| messageQueue := messageQueue p; processingQueue := processingQueue p;
         env := env'; incoming := tail (incoming p);
         drained := drained p ++ [(message, r)] |} in
    (r, foldl arrive p' (hd [] (incoming p))).

(** The [while (this.messageQueue.length > 0)] loop; [None] when [fuel]
    iterations were not enough to empty the queue. *)
Fixpoint drain (fuel : nat) (result : ActionResult.t) (p : Processor)
    : option (Res ActionResult.t * Processor) :=
  match fuel with
  | O => None
  | S fuel' =>
      match messageQueue p with
      | [] => Some (Returned result, p)
      | message :: rest =>
          match awaitInternal message (set_messageQueue rest p) with
          | (Returned result', p') => drain fuel' result' p'
          | (Threw e, p') => Some (Threw e, p')
          end
      end
  end.

(** Iterations that always suffice: each one removes a message, and only
    the messages of [incoming] can be added. *)
Definition drainBound (p : Processor) : nat :=
  S (length (messageQueue p) + length (concat (incoming p))).

(** [processMessageQueue()] *)
Definition processMessageQueue (p : Processor)
    : option (Res ActionResult.t * Processor) :=
  let p1 := set_processingQueue true p in
  let result :=
    {| ActionResult.text := lit ""; ActionResult.shouldSendMessage := false;
       ActionResult.context := None; ActionResult.embeds := None |} in
  match drain (drainBound p1) result p1 with
  | Some (r, p2) => Some (r, set_processingQueue false p2)
  | None => None
  end.

(** [processMessage(message)] *)
Definition processMessage (message : Message.t) (p : Processor)
    : option (Res ActionResult.t * Processor) :=
  match enqueue message p with
  | (Threw e, p1) => Some (Threw e, p1)
  | (Returned _, p1) =>
      if negb (processingQueue p1) then processMessageQueue p1
      else Some (Returned queued, p1)
  end.

End Queue.

Arguments messageQueue {Env} p.
Arguments processingQueue {Env} p.
Arguments env {Env} p.
Arguments incoming {Env} p.
Arguments drained {Env} p.
Arguments set_messageQueue {Env} q p.
Arguments set_processingQueue {Env} b p.
Arguments enqueue {Env} message p.
Arguments arrive {Env} p message.
Arguments drainBound {Env} p.
Arguments replay {Env} processMessageInternal messages e.
Arguments awaitInternal {Env} processMessageInternal message p.
Arguments drain {Env} processMessageInternal fuel result p.
Arguments processMessageQueue {Env} processMessageInternal p.
Arguments processMessage {Env} processMessageInternal message p.

(** *** Reading runs of the limiter and of the retry loop *)

(** Calls of [checkRateLimit] on any keys at any times, one after the
    other: the map after the last of them. *)
Fixpoint checkRateLimitCalls (calls : list (string * Z))
    (limits : gmap string RateLimitWindow) : gmap string RateLimitWindow :=
  match calls with
  | [] => limits
  | (key, now) :: later =>
      checkRateLimitCalls later (snd (checkRateLimit now key limits))
  end.

(** Every window has counted at least one request and at most
    [maxRequests]. *)
Definition countsInRange (limits : gmap string RateLimitWindow) : Prop :=
  forall key w, limits !! key = Some w ->
    1 <= count w <= maxRequests RATE_LIMIT_CONFIG.

(** The delay an iteration of [withRetry] handed to [setTimeout]. *)
Definition waitOf (entry : Attempt) : Z :=
  match entry with
  | Rejected _ ms | BackedOff _ _ ms => ms
  | Succeeded _ | GaveUp _ _ => 0
  end.

(** The time a run of [withRetry] asked to sleep, in all. *)
Definition slept (entries : list Attempt) : Z :=
  fold_right (fun entry total => waitOf entry + total) 0 entries.

(** The most [remaining] iterations starting at [attempt] can sleep. *)
Fixpoint sleepBudget (remaining attempt : nat) : Z :=
  match remaining with
  | O => 0
  | S remaining' => waitTime attempt + sleepBudget remaining' (S attempt)
  end.

(** A text that [validateMessage] has nothing to do to: not empty, at most
    2000 code units, without backslash, [<] or [>], and with no white space
    at either end. *)
Definition clean (s : jsstring) : Prop :=
  s <> []
  /\ (length s <= 2000)%nat
  /\ Forall (fun c => harmful c = false) s
  /\ (forall c t, s = c :: t -> isWhiteSpace c = false)
  /\ (forall t c, s = t ++ [c] -> isWhiteSpace c = false).

(** *** The history cache *)

Section History.

(** [Env] is the memory store behind [this.memory]; [Value] is what the
    cache holds ([Map<string, any>]). *)
Variable Env : Type.
Variable Value : Type.
Variable getConversations : string -> M Env Value.

Record Cached : Type := {
  memoryCache : gmap string Value;
  store : Env
}.

(** [getHistory(conversationId)] *)
Definition getHistory (conversationId : string) : M Cached Value :=
  fun c =>
    let cacheKey := String.append "history_" conversationId in
    match memoryCache c !! cacheKey with
    | Some history => (Returned history, c)
    | None =>
        match getConversations conversationId (store c) with
        | (Returned history, store') =>
            (Returned history,
             {| memoryCache := <[cacheKey := history]> (memoryCache c);
                store := store' |})
        | (Threw e, store') =>
            (Threw e, {| memoryCache := memoryCache c; store := store' |})
        end
    end.

End History.

Arguments memoryCache {Env Value} c.
Arguments store {Env Value} c.
Arguments getHistory {Env Value} getConversations conversationId c.

End Agent.

(** ** The memory store (core/memory.js) *)

Module Memory.

(** A JSON document: what [JSON.parse] returns and [JSON.stringify] takes. *)
Inductive Json : Type :=
| JNull
| JBool (b : bool)
| JNumber (n : Z)
| JString (s : jsstring)
| JArray (items : list Json)
| JObject (fields : list (string * Json)).

(** [ToBoolean] on a parsed document. *)
Definition truthyJson (v : Json) : bool :=
  match v with
  | JNull => false
  | JBool b => b
  | JNumber n => negb (n =? 0)
  | JString s => match s with [] => false | _ :: _ => true end
  | JArray _ | JObject _ => true
  end.

(** A string held by the key-value store, told apart by what the code can
    observe of it: the empty string (falsy), a string [JSON.parse] rejects,
    or the text [JSON.stringify(v)] of a document [v], which [JSON.parse]
    maps back to [v]. *)
Inductive KvText : Type :=
| EmptyText
| Unparsable
| Document (v : Json).

Definition JSON_stringify (v : Json) : KvText := Document v.

Definition JSON_parse (data : KvText) : Res Json :=
  match data with
  | Document v => Returned v
  | EmptyText | Unparsable =>
      Threw {| error_name := "SyntaxError";
               error_message := "Unexpected token in JSON";
               error_response := None |}
  end.

(** Modelled from the spec: the backing key-value binding ([AGENT_KV]), an
    external service with the interface [get(key) -> string|null] and
    [put(key, value, {expirationTtl}) -> void].  [entries] holds each value
    with the time, in seconds, at which its key expires; [time] is the
    current time; [faults] says, for each coming request in order, whether
    it throws (and what); once [faults] is used up requests succeed. *)
Record KVNamespace : Type := {
  entries : gmap string (KvText * Z);
  time : Z;
  faults : list (option Error)
}.

(** The next request is consumed from [faults]. *)
Definition request {A : Type} (serve : KVNamespace -> A * gmap string (KvText * Z))
    : M KVNamespace A :=
  fun ns =>
    match hd None (faults ns) with
    | Some e =>
        (Threw e, {| entries := entries ns; time := time ns;
                     faults := tail (faults ns) |})
    | None =>
        let (a, entries') := serve ns in
        (Returned a, {| entries := entries'; time := time ns;
                        faults := tail (faults ns) |})
    end.

(** What [get] reads from the store at the current time. *)
Definition live (key : string) (ns : KVNamespace) : option KvText :=
  match entries ns !! key with
  | Some (value, expiration) =>
      if time ns <? expiration then Some value else None
  | None => None
  end.

(** [kv.get(key)] *)
Definition get (key : string) : M KVNamespace (option KvText) :=
  request (fun ns => (live key ns, entries ns)).

(** [kv.put(key, value, { expirationTtl })] *)
Definition put (key : string) (value : KvText) (expirationTtl : Z)
    : M KVNamespace unit :=
  request (fun ns =>
    (tt, <[key := (value, time ns + expirationTtl)]> (entries ns))).

(** [d] seconds pass. *)
Definition elapse (d : Z) (ns : KVNamespace) : KVNamespace :=
  {| entries := entries ns; time := time ns + d; faults := faults ns |}.

Definition MEMORY_TYPES_CONVERSATION : string := "conversation".
Definition MEMORY_TYPES_LONG_TERM : string := "long_term".
Definition TTL_CONVERSATION : Z := 60 * 60 * 24.
Definition TTL_LONG_TERM : Z := 60 * 60 * 24 * 30.

(** The fields of a [Memory] object. *)
Record Memory : Type := {
  kv : option KVNamespace;
  isAvailable : bool
}.

(** [new Memory(env)], given [env?.AGENT_KV]. *)
Definition constructor (AGENT_KV : option KVNamespace) : Memory :=
  {| kv := AGENT_KV;
     isAvailable := match AGENT_KV with Some _ => true | None => false end |}.

(** A method call [this.kv.m(...)]; a [TypeError] when [this.kv] is
    undefined. *)
Definition onKv {A : Type} (call : M KVNamespace A) : M Memory A :=
  fun mem =>
    match kv mem with
    | None =>
        (Threw (newTypeError "Cannot read properties of undefined"), mem)
    | Some ns =>
        let (r, ns') := call ns in
        (r, {| kv := Some ns'; isAvailable := isAvailable mem |})
    end.

(** The key [`${type}:${userId}`]. *)
Definition keyOf (type userId : string) : string :=
  (type +:+ ":" +:+ userId)%string.

(** The body shared by [getConversations] and [getLongTerm], which differ in
    the memory type only. *)
Definition getList (type userId : string) : M Memory Json :=
  fun mem =>
    if negb (isAvailable mem) then (Returned (JArray []), mem)
    else
      tryCatch
        (let key := keyOf type userId in
         let* data := onKv (get key) in
         match data with
         | Some EmptyText | None => ret (JArray [])
         | Some text => fun mem' => (JSON_parse text, mem')
         end)
        (fun error => ret (JArray []))
        mem.

(** [getConversations(userId)] *)
Definition getConversations (userId : string) : M Memory Json :=
  getList MEMORY_TYPES_CONVERSATION userId.

(** [getLongTerm(userId)] *)
Definition getLongTerm (userId : string) : M Memory Json :=
  getList MEMORY_TYPES_LONG_TERM userId.

(** The code points of a string, as its iterator yields them: a high
    surrogate followed by a low one is one element. *)
Fixpoint codePoints (s : jsstring) : list jsstring :=
  match s with
  | [] => []
  | c :: s' =>
      match s' with
      | d :: s'' =>
          if ((55296 <=? c) && (c <=? 56319) && (56320 <=? d) && (d <=? 57343))%N
          then [c; d] :: codePoints s''
          else [c] :: codePoints s'
      | [] => [[c]]
      end
  end.

(** [[...existing]] *)
Definition spread (existing : Json) : Res (list Json) :=
  match existing with
  | JArray items => Returned items
  | JString s => Returned (map JString (codePoints s))
  | _ => Threw (newTypeError "existing is not iterable")
  end.

(** [existing ? [...existing, item] : [item]] *)
Definition append (existing item : Json) : Res (list Json) :=
  if truthyJson existing then
    match spread existing with
    | Returned items => Returned (items ++ [item])
    | Threw e => Threw e
    end
  else Returned [item].

(** The body shared by [storeConversation] and [storeLongTerm]. *)
Definition storeItem (type : string) (ttl : Z) (userId : string) (item : Json)
    : M Memory unit :=
  fun mem =>
    if negb (isAvailable mem) then (Returned tt, mem)
    else
      tryCatch
        (let key := keyOf type userId in
         let* existing := getList type userId in
         let* items := (fun mem' => (append existing item, mem')) in
         onKv (put key (JSON_stringify (JArray items)) ttl))
        (fun error => ret tt)
        mem.

(** [storeConversation(userId, message)] *)
Definition storeConversation (userId : string) (message : Json) : M Memory unit :=
  storeItem MEMORY_TYPES_CONVERSATION TTL_CONVERSATION userId message.

(** [storeLongTerm(userId, memory)] *)
Definition storeLongTerm (userId : string) (memory : Json) : M Memory unit :=
  storeItem MEMORY_TYPES_LONG_TERM TTL_LONG_TERM userId memory.

(** [d] seconds pass for the store behind the object. *)
Definition later (d : Z) (mem : Memory) : Memory :=
  {| kv := elapse d <$> kv mem; isAvailable := isAvailable mem |}.

(** A read of [key] cannot deliver a document: the store is flagged
    unavailable, the binding is missing, the request throws, the key is
    absent or expired, or the text under it is empty or does not parse. *)
Definition readDegraded (key : string) (mem : Memory) : Prop :=
  isAvailable mem = false
  \/ kv mem = None
  \/ exists ns, kv mem = Some ns
       /\ ((exists e, hd None (faults ns) = Some e)
           \/ live key ns = None
           \/ live key ns = Some EmptyText
           \/ live key ns = Some Unparsable).

(** A write cannot go through: the store is flagged unavailable, the
    binding is missing, or the [put], the second request of a store
    operation, throws. *)
Definition writeFails (mem : Memory) : Prop :=
  isAvailable mem = false
  \/ kv mem = None
  \/ exists ns e, kv mem = Some ns /\ faults ns !! 1%nat = Some (Some e).

(** The stored entries, as seen from outside the object. *)
Definition stored (mem : Memory) : option (gmap string (KvText * Z)) :=
  entries <$> kv mem.

(** What [getAllMemories] returns. *)
Record Memories : Type := {
  conversations : Json;
  longTerm : Json
}.

(** [v || []] *)
Definition orEmpty (v : Json) : Json :=
  if truthyJson v then v else JArray [].

(** [getAllMemories(userId)].  The two reads of [Promise.all] issue their
    requests in the order written; neither can reject. *)
Definition getAllMemories (userId : string) : M Memory Memories :=
  fun mem =>
    if negb (isAvailable mem) then
      (Returned {| conversations := JArray []; longTerm := JArray [] |}, mem)
    else
      tryCatch
        (let* conversations := getConversations userId in
         let* longTerm := getLongTerm userId in
         ret {| conversations := orEmpty conversations;
                longTerm := orEmpty longTerm |})
        (fun error =>
           ret {| conversations := JArray []; longTerm := JArray [] |})
        mem.

(** A document that is neither falsy nor iterable: an object, a non-zero
    number or [true]. *)
Definition notIterable (v : Json) : Prop :=
  match v with
  | JObject _ => True
  | JNumber n => n <> 0
  | JBool b => b = true
  | JNull | JString _ | JArray _ => False
  end.

(** The flag set at construction says whether there is a binding. *)
Definition flagged (mem : Memory) : Prop :=
  isAvailable mem = match kv mem with Some _ => true | None => false end.

End Memory.

(** ** The core agent (message bus): action dispatch *)

Module CoreAgent.

(** [message.author] of a cast. *)
Record CastAuthor : Type := {
  fid : JsValue
}.

(** The webhook message of the core agent. *)
Record Cast : Type := {
  text : JsValue;
  hash : JsValue;
  author : option CastAuthor
}.

Section Bus.

(** [Env] is the rest of the world the agent acts on (memory, network). *)
Variable Env : Type.

(** An action of the registry.  [shouldExecute] is [None] for an object
    without that method. *)
Record Action : Type := {
  name : string;
  shouldExecute : option (JsValue -> bool);
  execute : JsValue -> option CastAuthor -> M Env ActionResult.t
}.

(** The base class: never matches, [execute] throws. *)
Definition baseAction (name : string) : Action :=
  {| name := name;
     shouldExecute := Some (fun _ => false);
     execute := fun _ _ => throw (newError "Action must implement execute method") |}.

(** The collaborators of [processMessage]: the memory context of lines
    51-58 and the storing of lines 81-96 (both swallow their errors),
    [generateResponse] and [publishCast]. *)
Variable recallContext : JsValue -> Env -> jsstring * Env.
Variable generateResponse : JsValue -> jsstring -> M Env jsstring.
Variable publishCast : jsstring -> JsValue -> option JsValue -> M Env unit.
Variable remember : JsValue -> JsValue -> jsstring -> Env -> Env.

(** The world, and the calls of [execute] made so far with their outcome. *)
Record State : Type := {
  env : Env;
  executed : list (Action * Res ActionResult.t)
}.

(** A computation on the world, run on the state. *)
Definition onEnv {A : Type} (c : M Env A) : M State A :=
  fun st =>
    let (r, env') := c (env st) in
    (r, {| env := env'; executed := executed st |}).

(** [await action.execute({ text, author })] *)
Definition run (action : Action) (userMessage : JsValue)
    (author : option CastAuthor) : M State ActionResult.t :=
  fun st =>
    let (r, env') := execute action userMessage author (env st) in
    (r, {| env := env'; executed := executed st ++ [(action, r)] |}).

(** [action.shouldExecute && action.shouldExecute(userMessage)] *)
Definition matches (userMessage : JsValue) (action : Action) : bool :=
  match shouldExecute action with
  | Some test => test userMessage
  | None => false
  end.

(** An entry of the log that ends the loop: a result with
    [shouldSendMessage], or an error. *)
Definition stops (entry : Action * Res ActionResult.t) : Prop :=
  match snd entry with
  | Returned result => ActionResult.shouldSendMessage result = true
  | Threw _ => True
  end.

(** A computation that calls no action. *)
Definition quiet {A : Type} (c : M State A) : Prop :=
  forall st, executed (snd (c st)) = executed st.

(** How the loop over the actions ends: by the [return result.text] inside
    it, or by running out of actions with the context gathered. *)
Inductive Dispatch : Type :=
| Replied (text : jsstring)
| Unanswered (context : jsstring).

(** The loop [for (const action of Object.values(this.actions))] of
    [processMessage]; [actions] is in the order of [Object.values]. *)
Fixpoint dispatch (actions : list Action) (userMessage parentHash : JsValue)
    (author : option CastAuthor) (context : jsstring) : M State Dispatch :=
  match actions with
  | [] => ret (Unanswered context)
  | action :: rest =>
      if matches userMessage action then
        let* result := run action userMessage author in
        if ActionResult.shouldSendMessage result then
          onEnv (publishCast (ActionResult.text result) parentHash
                   (ActionResult.embeds result)) >>
          ret (Replied (ActionResult.text result))
        else
          match ActionResult.context result with
          | Some (c :: cs) =>
              dispatch rest userMessage parentHash author
                (context ++ lit (String "010" "") ++ c :: cs)
          | _ => dispatch rest userMessage parentHash author context
          end
      else dispatch rest userMessage parentHash author context
  end.

(** [processMessage(message)]; the outer [catch] logs and rethrows. *)
Definition processMessage (actions : list Action) (message : Cast)
    : M State jsstring :=
  let userMessage := text message in
  let parentHash := hash message in
  let authorFid :=
    match author message with Some a => fid a | None => JsUndefined end in
  if negb (truthy authorFid) then
    throw (newError "Invalid message format: missing author FID")
  else
    let* context := onEnv (fun e => let (c, e') := recallContext authorFid e in
                                    (Returned c, e')) in
    let* d := dispatch actions userMessage parentHash (author message) context in
    match d with
    | Replied text => ret text
    | Unanswered context =>
        let* response := onEnv (generateResponse userMessage context) in
        onEnv (publishCast response parentHash None) >>
        onEnv (fun e => (Returned tt, remember authorFid userMessage response e)) >>
        ret response
    end.

End Bus.

Arguments name {Env} a.
Arguments shouldExecute {Env} a.
Arguments execute {Env} a.
Arguments env {Env} s.
Arguments executed {Env} s.
Arguments matches {Env} userMessage action.
Arguments stops {Env} entry.
Arguments quiet {Env A} c.
Arguments onEnv {Env A} c st.
Arguments run {Env} action userMessage author st.
Arguments dispatch {Env} publishCast actions userMessage parentHash author context st.
Arguments processMessage {Env} recallContext generateResponse publishCast remember actions message st.

(** *** Trimming a reply to the length limit *)

Definition FARCASTER_LIMIT : nat := 280.

(** [s.lastIndexOf(c)] for a single code unit [c]; [None] stands for -1. *)
Fixpoint lastIndexOf (c : N) (s : jsstring) : option nat :=
  match s with
  | [] => None
  | d :: s' =>
      match lastIndexOf c s' with
      | Some i => Some (S i)
      | None => if (d =? c)%N then Some O else None
      end
  end.

(** [trimToFarcasterLimit(text)]; 46 is the full stop. *)
Definition trimToFarcasterLimit (text : jsstring) : jsstring :=
  if (length text <=? FARCASTER_LIMIT)%nat then text
  else
    let trimmed := take FARCASTER_LIMIT text in
    match lastIndexOf 46 trimmed with
    | Some (S lastPeriod) => take (S lastPeriod + 1) trimmed
    | Some O | None => trimmed
    end.

(** *** Commands *)

Section Commands.

Variable Env : Type.

(** The text a template literal makes of a user id ([`${userId}`]). *)
Variable toKey : JsValue -> string.

(** The property names a plain object inherits from [Object.prototype];
    [this.actions[name]] is truthy for them although no action is
    registered. *)
Definition inherited (name : string) : bool :=
  existsb (String.eqb name)
    ["constructor"; "toString"; "toLocaleString"; "valueOf";
     "hasOwnProperty"; "isPrototypeOf"; "propertyIsEnumerable"; "__proto__";
     "__defineGetter__"; "__defineSetter__"; "__lookupGetter__";
     "__lookupSetter__"].

(** What [handleAction] works on: the world the actions act on, the memory
    store, and the value of [Date.now()]. *)
Record Desk : Type := {
  world : Env;
  memory : Memory.Memory;
  today : Z
}.

Definition onWorld {A : Type} (c : M Env A) : M Desk A :=
  fun d =>
    let (r, world') := c (world d) in
    (r, {| world := world'; memory := memory d; today := today d |}).

Definition onMemory {A : Type} (c : M Memory.Memory A) : M Desk A :=
  fun d =>
    let (r, memory') := c (memory d) in
    (r, {| world := world d; memory := memory'; today := today d |}).

(** An object with a [text] property only. *)
Definition textOnly (text : jsstring) : ActionResult.t :=
  {| ActionResult.text := text; ActionResult.shouldSendMessage := false;
     ActionResult.context := None; ActionResult.embeds := None |}.

(** [{ type: 'action', action: actionName, timestamp: Date.now() }] *)
Definition actionRecord (actionName : string) (now : Z) : Memory.Json :=
  Memory.JObject [("type", Memory.JString (lit "action"));
                  ("action", Memory.JString (lit actionName));
                  ("timestamp", Memory.JNumber now)].

(** [handleAction(actionName, text, author)], with the registry as a map
    from names to actions. *)
Definition handleAction (actions : gmap string (Action Env))
    (actionName : string) (text : JsValue) (author : option CastAuthor)
    : M Desk ActionResult.t :=
  let failed := fun error : Error =>
    (ret (textOnly (lit "Sorry, that action failed")) : M Desk ActionResult.t) in
  match actions !! actionName with
  | Some action =>
      tryCatch
        (let* result := onWorld (execute action text author) in
         let* fid := (match author with
                      | Some a => ret (fid a)
                      | None =>
                          throw (newTypeError
                                   "Cannot read properties of undefined")
                      end : M Desk JsValue) in
         (fun d => onMemory (Memory.storeLongTerm (toKey fid)
                               (actionRecord actionName (today d))) d) >>
         ret result)
        failed
  | None =>
      if inherited actionName then
        tryCatch (throw (newTypeError "action.execute is not a function"))
                 failed
      else
        ret (textOnly (lit (String.append "Unknown command /" actionName)))
  end.

End Commands.

Arguments world {Env} d.
Arguments memory {Env} d.
Arguments today {Env} d.
Arguments handleAction {Env} toKey actions actionName text author.

(** *** The memory context *)

Section Context.

(** The text a template literal makes of a value ([`${v}`]); [None] is
    [undefined]. *)
Variable show : option Memory.Json -> jsstring.

(** The value of [fields] under [name], as [JSON.parse] builds objects: the
    last of several bindings of a name wins. *)
Fixpoint lookupField (name : string) (fields : list (string * Memory.Json))
    : option Memory.Json :=
  match fields with
  | [] => None
  | (k, v) :: rest =>
      match lookupField name rest with
      | Some later => Some later
      | None => if String.eqb k name then Some v else None
      end
  end.

(** [m.name] for one of the names [role], [content], [type], [action]:
    a [TypeError] on [null], [undefined] on what is not an object. *)
Definition property (name : string) (m : Memory.Json) : Res (option Memory.Json) :=
  match m with
  | Memory.JNull =>
      Threw (newTypeError "Cannot read properties of null")
  | Memory.JObject fields => Returned (lookupField name fields)
  | _ => Returned None
  end.

(** [items.slice(-n)] on an array. *)
Definition sliceLast {A : Type} (n : nat) (items : list A) : list A :=
  drop (length items - n) items.

(** [parts.join(sep)] *)
Fixpoint join (sep : jsstring) (parts : list jsstring) : jsstring :=
  match parts with
  | [] => []
  | [part] => part
  | part :: rest => part ++ sep ++ join sep rest
  end.

(** [items.map(f)] for an [f] that can throw. *)
Fixpoint mapRes {A B : Type} (f : A -> Res B) (items : list A) : Res (list B) :=
  match items with
  | [] => Returned []
  | item :: rest =>
      match f item with
      | Threw e => Threw e
      | Returned b =>
          match mapRes f rest with
          | Threw e => Threw e
          | Returned bs => Returned (b :: bs)
          end
      end
  end.

(** [m => `${m.role}: ${m.content}`] *)
Definition showTurn (m : Memory.Json) : Res jsstring :=
  match property "role" m, property "content" m with
  | Returned role, Returned content =>
      Returned (show role ++ lit ": " ++ show content)
  | Threw e, _ | _, Threw e => Threw e
  end.

(** [x || y] on properties. *)
Definition orElse (x y : option Memory.Json) : option Memory.Json :=
  match x with
  | Some v => if Memory.truthyJson v then x else y
  | None => y
  end.

(** [m => `Previous ${m.type}: ${m.action || m.content}`] *)
Definition showRecord (m : Memory.Json) : Res jsstring :=
  match property "type" m, property "action" m, property "content" m with
  | Returned type, Returned action, Returned content =>
      Returned (lit "Previous " ++ show type ++ lit ": "
                ++ show (orElse action content))
  | Threw e, _, _ | _, Threw e, _ | _, _, Threw e => Threw e
  end.

(** [v.slice(-n).map(f).join('\n')]: a [TypeError] unless [v] is an
    array. *)
Definition lastLines (n : nat) (f : Memory.Json -> Res jsstring)
    (v : Memory.Json) : Res jsstring :=
  match v with
  | Memory.JArray items =>
      match mapRes f (sliceLast n items) with
      | Returned lines => Returned (join (lit (String "010" "")) lines)
      | Threw e => Threw e
      end
  | _ => Threw (newTypeError "slice(...).map is not a function")
  end.

(** [formatMemoriesForContext(memories)] *)
Definition formatMemoriesForContext (memories : Memory.Memories) : Res jsstring :=
  match lastLines 5 showTurn (Memory.conversations memories) with
  | Threw e => Threw e
  | Returned recentConversations =>
      match lastLines 3 showRecord (Memory.longTerm memories) with
      | Threw e => Threw e
      | Returned relevantLongTerm =>
          Returned (lit "Recent conversations:" ++ lit (String "010" "")
                    ++ recentConversations
                    ++ lit (String "010" (String "010" "Relevant history:"))
                    ++ lit (String "010" "") ++ relevantLongTerm)
      end
  end.

(** [prepareContext(memories)]: the same statements again. *)
Definition prepareContext (memories : Memory.Memories) : Res jsstring :=
  match lastLines 5 showTurn (Memory.conversations memories) with
  | Threw e => Threw e
  | Returned recentConversations =>
      match lastLines 3 showRecord (Memory.longTerm memories) with
      | Threw e => Threw e
      | Returned relevantLongTerm =>
          Returned (lit "Recent conversations:" ++ lit (String "010" "")
                    ++ recentConversations
                    ++ lit (String "010" (String "010" "Relevant history:"))
                    ++ lit (String "010" "") ++ relevantLongTerm)
      end
  end.

End Context.

End CoreAgent.

(** ** The worker entry point *)

Module Worker.

(** The body of a response: none, a text, or the text [JSON.stringify]
    makes of a document. *)
Inductive Body : Type :=
| NoBody
| Text (s : string)
| JsonText (v : Memory.Json).

(** A [Response], with the headers the code sets. *)
Record Response : Type := {
  status : Z;
  body : Body;
  headers : list (string * string)
}.

(** A [Request]: its method, and how [request.json()] ends. *)
Record Request : Type := {
  method : string;
  json : Res Memory.Json
}.

Section Fetch.

(** [newAgent] is [new Agent(env)] and [processMessage] the method of the
    agent it makes; both act on the world and may throw. *)
Variable World : Type.
Variable AgentObject : Type.
Variable newAgent : M World AgentObject.
Variable processMessage : AgentObject -> option Memory.Json -> M World Memory.Json.

(** [payload.data]; [None] is [undefined]. *)
Definition data (payload : Memory.Json) : Res (option Memory.Json) :=
  match payload with
  | Memory.JNull => Threw (newTypeError "Cannot read properties of null")
  | Memory.JObject fields => Returned (CoreAgent.lookupField "data" fields)
  | _ => Returned None
  end.

Definition internalError : Response :=
  {| status := 500;
     body := JsonText (Memory.JObject
                         [("error", Memory.JString (lit "Internal server error"))]);
     headers := [("Content-Type", "application/json")] |}.

(** [fetch(request, env, ctx)] *)
Definition fetch (request : Request) : M World Response :=
  if String.eqb (method request) "OPTIONS" then
    ret {| status := 200; body := NoBody;
           headers := [("Access-Control-Allow-Origin", "*");
                       ("Access-Control-Allow-Methods", "POST");
                       ("Access-Control-Allow-Headers", "Content-Type")] |}
  else if negb (String.eqb (method request) "POST") then
    ret {| status := 405; body := Text "Method not allowed"; headers := [] |}
  else
    tryCatch
      (let* payload := (fun w => (json request, w)) in
       let* agent := newAgent in
       let* message := (fun w => (data payload, w)) in
       let* result := processMessage agent message in
       ret {| status := 200; body := JsonText result;
              headers := [("Content-Type", "application/json")] |})
      (fun error => ret internalError).

End Fetch.

Arguments fetch {World AgentObject} newAgent processMessage request.

End Worker.

Import Agent.

(** ** Sample inputs *)

Module Sample.

Definition author : Author.t :=
  {| Author.id := JsNumber 1; Author.username := JsString (lit "a") |}.

(** [{platform: "farcaster", text, author: {id: 1, username: "a"}}] *)
Definition message (text : JsValue) : Message.t :=
  {| Message.platform := JsString (lit "farcaster");
     Message.text := text;
     Message.author := Some author;
     Message.raw := JsObject 7 |}.

(** A [NetworkError], which [shouldRetry] accepts. *)
Definition networkError : Error :=
  {| error_name := "NetworkError"; error_message := "fetch failed";
     error_response := None |}.

(** An error [shouldRetry] refuses. *)
Definition badRequest : Error :=
  {| error_name := "Error"; error_message := "OpenRouter API error: 400";
     error_response := None |}.

(** A world in which the window of [llm-api] is used up until time 60000;
    the clock reads 1000 first and 70000 from then on. *)
Definition saturated : World :=
  {| rateLimits := {[ "llm-api" := {| count := 50; resetTime := 60000 |} ]};
     clock := fun k => match k with O => 1000 | S _ => 70000 end;
     ticks := 0; invocations := 0; journal := [] |}.

(** A world with no window yet. *)
Definition idle : World :=
  {| rateLimits := ∅; clock := fun k => 1000 * Z.of_nat k;
     ticks := 0; invocations := 0; journal := [] |}.

(** A stand-in for [processMessageInternal]: replies with the text of the
    message, throws when there is none, and counts its calls. *)
Definition echo (message : Message.t) : M nat ActionResult.t :=
  fun calls =>
    (match Message.text message with
     | JsString s =>
         Returned {| ActionResult.text := s;
                     ActionResult.shouldSendMessage := true;
                     ActionResult.context := None;
                     ActionResult.embeds := None |}
     | _ => Threw (newError "Failed to transform message")
     end, S calls).

(** A conversation turn [{role, content}]. *)
Definition turn (role content : string) : Memory.Json :=
  Memory.JObject [("role", Memory.JString (lit role));
                  ("content", Memory.JString (lit content))].

(** A store at time 1000 that holds one turn of user 42, written then. *)
Definition kvStore : Memory.KVNamespace :=
  {| Memory.entries :=
       {[ "conversation:42" :=
            (Memory.Document (Memory.JArray [turn "user" "hi"]), 87400) ]};
     Memory.time := 1000;
     Memory.faults := [] |}.

(** The same store, whose second coming request throws. *)
Definition kvFlaky : Memory.KVNamespace :=
  {| Memory.entries := Memory.entries kvStore;
     Memory.time := 1000;
     Memory.faults := [None; Some networkError] |}.

(** Two actions that match every text: one only supplies context, the
    other replies. *)
Definition lookup : CoreAgent.Action unit :=
  {| CoreAgent.name := "lookup";
     CoreAgent.shouldExecute := Some (fun _ => true);
     CoreAgent.execute := fun _ _ =>
       ret {| ActionResult.text := [];
              ActionResult.shouldSendMessage := false;
              ActionResult.context := Some (lit "price: 42");
              ActionResult.embeds := None |} |}.

Definition greet : CoreAgent.Action unit :=
  {| CoreAgent.name := "greet";
     CoreAgent.shouldExecute := Some (fun _ => true);
     CoreAgent.execute := fun _ _ =>
       ret {| ActionResult.text := lit "gm";
              ActionResult.shouldSendMessage := true;
              ActionResult.context := None;
              ActionResult.embeds := None |} |}.

(** A cast [{text: "hello", hash, author: {fid: 1}}]. *)
Definition cast : CoreAgent.Cast :=
  {| CoreAgent.text := JsString (lit "hello");
     CoreAgent.hash := JsString (lit "0xabc");
     CoreAgent.author := Some {| CoreAgent.fid := JsNumber 1 |} |}.

(** Collaborators that do nothing. *)
Definition noContext (fid : JsValue) (e : unit) : jsstring * unit := ([], e).
Definition sayOk (text : JsValue) (context : jsstring) : M unit jsstring :=
  ret (lit "ok").
Definition publish (text : jsstring) (parent : JsValue)
    (embeds : option JsValue) : M unit unit := ret tt.
Definition forget (fid text : JsValue) (response : jsstring) (e : unit) : unit := e.

Definition fresh : CoreAgent.State unit :=
  {| CoreAgent.env := tt; CoreAgent.executed := [] |}.

(** A processor at rest, and one in the middle of a drain. *)
Definition resting : Processor nat :=
  {| messageQueue := []; processingQueue := false; env := 0%nat;
     incoming := [[message (JsString (lit "later"))]]; drained := [] |}.

Definition draining : Processor nat :=
  {| messageQueue := []; processingQueue := true; env := 0%nat;
     incoming := []; drained := [] |}.

(** The store of user 42, whose next request throws. *)
Definition kvReadFails : Memory.KVNamespace :=
  {| Memory.entries := Memory.entries kvStore;
     Memory.time := 1000;
     Memory.faults := [Some networkError] |}.

(** A store in which the conversation key of user 7 holds an object. *)
Definition kvObject : Memory.KVNamespace :=
  {| Memory.entries :=
       {[ "conversation:7" := (Memory.Document (turn "user" "hi"), 87400) ]};
     Memory.time := 1000;
     Memory.faults := [] |}.

(** A processor at rest that nobody else is calling. *)
Definition alone : Processor nat :=
  {| messageQueue := []; processingQueue := false; env := 0%nat;
     incoming := []; drained := [] |}.

End Sample.

(** * Properties *)

(** ** Strings *)

Section Trim.

Lemma trimStart_spec (s : jsstring) :
  exists l, s = l ++ trimStart s
    /\ Forall (fun c => isWhiteSpace c = true) l
    /\ (forall c t, trimStart s = c :: t -> isWhiteSpace c = false).
Proof.
  induction s as [|c s IH]; simpl.
  - exists []. repeat split; [constructor | discriminate].
  - destruct (isWhiteSpace c) eqn:Hc.
    + destruct IH as (l & Hs & Hl & Hhead).
      exists (c :: l). split; [simpl; congruence|].
      split; [constructor; assumption | exact Hhead].
    + exists []. repeat split; [constructor|].
      intros c' t [= <- _]. exact Hc.
Qed.

(** [trim] removes a run of white space at each end, and what is left
    neither starts nor ends with white space. *)
Lemma trim_spec (s : jsstring) :
  exists l r, s = l ++ trim s ++ r
    /\ Forall (fun c => isWhiteSpace c = true) l
    /\ Forall (fun c => isWhiteSpace c = true) r
    /\ (forall c t, trim s = c :: t -> isWhiteSpace c = false)
    /\ (forall t c, trim s = t ++ [c] -> isWhiteSpace c = false).
Proof.
  destruct (trimStart_spec s) as (l & Hs & Hl & Hhead).
  destruct (trimStart_spec (rev (trimStart s))) as (r & Hr & Hrw & Hlast).
  exists l, (rev r). unfold trim, trimEnd.
  assert (Hmid : trimStart s = rev (trimStart (rev (trimStart s))) ++ rev r).
  { rewrite <- rev_app_distr, <- Hr, rev_involutive. reflexivity. }
  split; [rewrite <- Hmid; exact Hs|].
  split; [exact Hl|].
  split; [apply Forall_rev; exact Hrw|].
  split.
  - intros c t Ht.
    destruct (trimStart (rev (trimStart s))) as [|d u] eqn:Hu; [discriminate|].
    assert (Hd : isWhiteSpace d = false) by (eapply Hlast; reflexivity).
    apply (Hhead c (t ++ rev r)). rewrite Hmid, Ht. reflexivity.
  - intros t c Ht. apply (Hlast c (rev t)).
    rewrite <- (rev_involutive (trimStart _)), Ht, rev_app_distr. reflexivity.
Qed.

End Trim.

(** ** Validation *)

Section Validation.

Lemma sanitize_length (s : jsstring) : (length (sanitize s) <= 2000)%nat.
Proof. unfold sanitize, slice0. rewrite length_take. lia. Qed.

Lemma sanitize_harmless (s : jsstring) :
  Forall (fun c => c <> 92%N /\ c <> 60%N /\ c <> 62%N) (sanitize s).
Proof.
  unfold sanitize, slice0. apply Forall_take, Forall_forall.
  intros c Hc. apply list_elem_of_filter in Hc as [Hc _].
  unfold harmful in Hc.
  repeat split; intros ->; discriminate.
Qed.

Lemma sanitize_sublist (s : jsstring) : sanitize s `sublist_of` s.
Proof.
  unfold sanitize, slice0.
  destruct (trim_spec s) as (l & r & Hs & _).
  etransitivity; [apply sublist_take|].
  etransitivity; [apply sublist_filter|].
  rewrite Hs at 2. apply sublist_inserts_l, sublist_inserts_r. reflexivity.
Qed.

(** What [validateMessage] does once the three guards are passed. *)
Lemma validateMessage_passes (m : Message.t) (s : jsstring) (a : Author.t) :
  truthy (Message.platform m) = true ->
  Message.text m = JsString s -> s <> [] ->
  Message.author m = Some a -> truthy (Author.username a) = true ->
  validateMessage m = Returned (Message.set_text m (JsString (sanitize s))).
Proof.
  intros Hp Ht Hs Ha Hu. unfold validateMessage.
  rewrite Hp, Ht, Ha, Hu. simpl.
  destruct s; [contradiction | reflexivity].
Qed.

(** The guards, read backwards: a message that is not rejected passed all
    three. *)
Lemma validateMessage_returned (m m' : Message.t) :
  validateMessage m = Returned m' ->
  exists s a, truthy (Message.platform m) = true
    /\ Message.text m = JsString s /\ s <> []
    /\ Message.author m = Some a /\ truthy (Author.username a) = true
    /\ m' = Message.set_text m (JsString (sanitize s)).
Proof.
  unfold validateMessage.
  destruct (truthy (Message.platform m)) eqn:Hp; simpl; [|discriminate].
  destruct (Message.text m) as [| |b|n|s|r] eqn:Ht; simpl; try discriminate.
  { rewrite orb_true_r. discriminate. }
  { rewrite orb_true_r. discriminate. }
  destruct s as [|c s]; simpl; [discriminate|].
  destruct (Message.author m) as [a|] eqn:Ha; [|discriminate].
  destruct (truthy (Author.username a)) eqn:Hu; simpl; [|discriminate].
  intros [= <-]. exists (c :: s), a. repeat split; try assumption. discriminate.
Qed.

(** C6, as stated, fails: a message whose text is the empty string has a
    platform, a string text field and an author with a username, and
    [validateMessage] throws on it. *)
Lemma validateMessage_empty_text_throws :
  let m := Sample.message (JsString []) in
  truthy (Message.platform m) = true
  /\ isString (Message.text m) = true
  /\ (exists a, Message.author m = Some a /\ truthy (Author.username a) = true)
  /\ validateMessage m = Threw (newError "Message must have valid text content").
Proof.
  simpl. repeat split; try reflexivity. eexists. split; reflexivity.
Qed.

(** C6, amended: a message with a truthy platform, a non-empty string as
    text and an author with a truthy username is accepted; afterwards its
    text is the original text with the white space at both ends removed,
    then every backslash, [<] and [>] removed, then cut to the first 2000
    code units; so it has at most 2000 code units, holds none of the three
    characters, and is a subsequence of the original; platform, author and
    raw payload are unchanged. *)
Theorem validateMessage_sanitizes (m : Message.t) (s : jsstring) (a : Author.t) :
  truthy (Message.platform m) = true ->
  Message.text m = JsString s -> s <> [] ->
  Message.author m = Some a -> truthy (Author.username a) = true ->
  exists (m' : Message.t) (l t r s' : jsstring),
    validateMessage m = Returned m'
    /\ Message.text m' = JsString s'
    /\ s = l ++ t ++ r
    /\ Forall (fun c => isWhiteSpace c = true) l
    /\ Forall (fun c => isWhiteSpace c = true) r
    /\ (forall c u, t = c :: u -> isWhiteSpace c = false)
    /\ (forall u c, t = u ++ [c] -> isWhiteSpace c = false)
    /\ s' = take 2000 (filter (fun c => harmful c = false) t)
    /\ (length s' <= 2000)%nat
    /\ Forall (fun c => c <> 92%N /\ c <> 60%N /\ c <> 62%N) s'
    /\ s' `sublist_of` s
    /\ Message.platform m' = Message.platform m
    /\ Message.author m' = Message.author m
    /\ Message.raw m' = Message.raw m.
Proof.
  intros Hp Ht Hs Ha Hu.
  destruct (trim_spec s) as (l & r & Hsplit & Hl & Hr & Hhead & Hlast).
  exists (Message.set_text m (JsString (sanitize s))), l, (trim s), r, (sanitize s).
  split; [eapply validateMessage_passes; eassumption|].
  split; [reflexivity|].
  split; [exact Hsplit|].
  split; [exact Hl|]. split; [exact Hr|].
  split; [exact Hhead|]. split; [exact Hlast|].
  split; [reflexivity|].
  split; [apply sanitize_length|].
  split; [apply sanitize_harmless|].
  split; [apply sanitize_sublist|].
  repeat split.
Qed.

Lemma validateMessage_sanitizes_witness :
  exists (m' : Message.t) (l t r s' : jsstring),
    validateMessage (Sample.message (JsString (lit " <b>hi</b> "))) = Returned m'
    /\ Message.text m' = JsString s'
    /\ lit " <b>hi</b> " = l ++ t ++ r
    /\ Forall (fun c => isWhiteSpace c = true) l
    /\ Forall (fun c => isWhiteSpace c = true) r
    /\ (forall c u, t = c :: u -> isWhiteSpace c = false)
    /\ (forall u c, t = u ++ [c] -> isWhiteSpace c = false)
    /\ s' = take 2000 (filter (fun c => harmful c = false) t)
    /\ (length s' <= 2000)%nat
    /\ Forall (fun c => c <> 92%N /\ c <> 60%N /\ c <> 62%N) s'
    /\ s' `sublist_of` lit " <b>hi</b> "
    /\ Message.platform m' = JsString (lit "farcaster")
    /\ Message.author m' = Some Sample.author
    /\ Message.raw m' = JsObject 7.
Proof.
  apply (validateMessage_sanitizes
           (Sample.message (JsString (lit " <b>hi</b> ")))
           (lit " <b>hi</b> ") Sample.author);
    try reflexivity.
  vm_compute. discriminate.
Defined.

(** A message that lacks one of the three is rejected. *)
Lemma validateMessage_rejects (m : Message.t) :
  truthy (Message.platform m) = false
  \/ truthy (Message.text m) = false
  \/ isString (Message.text m) = false
  \/ Message.author m = None
  \/ (exists a, Message.author m = Some a /\ truthy (Author.username a) = false) ->
  exists e, validateMessage m = Threw e.
Proof.
  intros H. destruct (validateMessage m) as [m'|e] eqn:Hv; [|eauto].
  apply validateMessage_returned in Hv
    as (s & a & Hp & Ht & Hs & Ha & Hu & _).
  destruct H as [H|[H|[H|[H|(a' & H & H')]]]].
  - congruence.
  - rewrite Ht in H. destruct s; [contradiction | discriminate].
  - rewrite Ht in H. discriminate.
  - congruence.
  - congruence.
Qed.

End Validation.

(** ** Rate limiter *)

Section RateLimiter.

Context (key : string).

Lemma checkRateLimit_fresh (now : Z) (limits : gmap string RateLimitWindow) :
  freshAt key now limits ->
  checkRateLimit now key limits
  = (true, <[key := {| count := 1;
                       resetTime := now + timeWindow RATE_LIMIT_CONFIG |}]> limits).
Proof.
  intros [Hnone | (w & Hw & Hpast)]; unfold checkRateLimit.
  - rewrite Hnone. reflexivity.
  - rewrite Hw. destruct (Z.gtb_spec now (resetTime w)); [reflexivity | lia].
Qed.

Lemma checkRateLimit_open (now : Z) (limits : gmap string RateLimitWindow)
    (w : RateLimitWindow) :
  limits !! key = Some w -> now <= resetTime w ->
  count w < maxRequests RATE_LIMIT_CONFIG ->
  checkRateLimit now key limits
  = (true, <[key := {| count := count w + 1; resetTime := resetTime w |}]> limits).
Proof.
  intros Hw Hnow Hc. unfold checkRateLimit. rewrite Hw.
  destruct (Z.gtb_spec now (resetTime w)); [lia|].
  destruct (Z.geb_spec (count w) (maxRequests RATE_LIMIT_CONFIG)); [lia|].
  reflexivity.
Qed.

Lemma checkRateLimit_full (now : Z) (limits : gmap string RateLimitWindow)
    (w : RateLimitWindow) :
  limits !! key = Some w -> now <= resetTime w ->
  count w >= maxRequests RATE_LIMIT_CONFIG ->
  checkRateLimit now key limits = (false, limits).
Proof.
  intros Hw Hnow Hc. unfold checkRateLimit. rewrite Hw.
  destruct (Z.gtb_spec now (resetTime w)); [lia|].
  destruct (Z.geb_spec (count w) (maxRequests RATE_LIMIT_CONFIG)); [|lia].
  reflexivity.
Qed.

Lemma answers_exhausted (c : Z) (k n : nat) :
  c >= 50 ->
  map (fun i : nat => c + Z.of_nat i <? 50) (seq k n) = replicate n false.
Proof.
  intros Hc. revert k. induction n as [|n IH]; intros k; simpl; [reflexivity|].
  rewrite IH. f_equal. apply Z.ltb_ge. lia.
Qed.

(** Calls inside a running window: the [i]-th of them is admitted exactly
    when fewer than [maxRequests] were counted before it. *)
Lemma checkRateLimits_inside (nows : list Z) :
  forall (limits : gmap string RateLimitWindow) (c R : Z),
    limits !! key = Some {| count := c; resetTime := R |} ->
    c <= 50 ->
    Forall (fun t => t <= R) nows ->
    checkRateLimits nows key limits
    = (map (fun i : nat => c + Z.of_nat i <? 50) (seq 0 (length nows)),
       <[key := {| count := Z.min 50 (c + Z.of_nat (length nows));
                   resetTime := R |}]> limits).
Proof.
  induction nows as [|now later IH]; intros limits c R Hw Hc Hin.
  - simpl. rewrite Z.add_0_r, Z.min_r by lia.
    rewrite insert_id by exact Hw. reflexivity.
  - apply Forall_cons in Hin as [Hnow Hlater].
    cbn [checkRateLimits length].
    destruct (Z.eq_dec c 50) as [-> | Hlt].
    + rewrite (checkRateLimit_full now limits _ Hw) by (simpl; lia).
      rewrite (IH limits 50 R Hw) by (lia || assumption).
      rewrite !answers_exhausted by lia.
      rewrite !Z.min_l by lia. reflexivity.
    + rewrite (checkRateLimit_open now limits _ Hw) by (simpl; lia).
      cbn [count resetTime].
      rewrite (IH _ (c + 1) R);
        [| apply lookup_insert_eq | lia | exact Hlater].
      rewrite insert_insert_eq.
      f_equal.
      * cbn [seq map]. f_equal; [symmetry; apply Z.ltb_lt; lia|].
        rewrite <- seq_shift, map_map. apply map_ext. intros i. f_equal. lia.
      * do 2 f_equal. lia.
Qed.

(** C5: counted from a call that finds no window, or finds one that has
    run out, the first [maxRequests] calls inside the window return true,
    the next one returns false, and the first call after [resetTime] starts
    a window of its own and returns true. *)
Theorem checkRateLimit_window (limits : gmap string RateLimitWindow)
    (t0 : Z) (later : list Z) (t' : Z) :
  freshAt key t0 limits ->
  length later = Z.to_nat (maxRequests RATE_LIMIT_CONFIG) ->
  Forall (fun t => t <= t0 + timeWindow RATE_LIMIT_CONFIG) later ->
  t' > t0 + timeWindow RATE_LIMIT_CONFIG ->
  exists limits',
    checkRateLimits (t0 :: later) key limits
    = (replicate (Z.to_nat (maxRequests RATE_LIMIT_CONFIG)) true ++ [false],
       limits')
    /\ limits' !! key
       = Some {| count := maxRequests RATE_LIMIT_CONFIG;
                 resetTime := t0 + timeWindow RATE_LIMIT_CONFIG |}
    /\ checkRateLimit t' key limits'
       = (true, <[key := {| count := 1;
                            resetTime := t' + timeWindow RATE_LIMIT_CONFIG |}]>
                  limits').
Proof.
  intros Hfresh Hlen Hin Hpast.
  cbn [checkRateLimits]. rewrite (checkRateLimit_fresh t0 limits Hfresh).
  rewrite (checkRateLimits_inside later _ 1 (t0 + timeWindow RATE_LIMIT_CONFIG));
    [| apply lookup_insert_eq | lia | exact Hin].
  rewrite Hlen. eexists. split; [reflexivity|].
  split; [rewrite lookup_insert_eq; reflexivity|].
  apply checkRateLimit_fresh. right. eexists.
  split; [apply lookup_insert_eq|]. cbn [resetTime]. exact Hpast.
Qed.

End RateLimiter.

Lemma checkRateLimit_window_witness :
  exists limits',
    checkRateLimits (0 :: replicate 50 60000) "llm-api" ∅
    = (replicate (Z.to_nat (maxRequests RATE_LIMIT_CONFIG)) true ++ [false],
       limits')
    /\ limits' !! "llm-api"
       = Some {| count := maxRequests RATE_LIMIT_CONFIG;
                 resetTime := 0 + timeWindow RATE_LIMIT_CONFIG |}
    /\ checkRateLimit 60001 "llm-api" limits'
       = (true, <[ "llm-api" := {| count := 1;
                     resetTime := 60001 + timeWindow RATE_LIMIT_CONFIG |}]>
                  limits').
Proof.
  apply (checkRateLimit_window "llm-api" ∅ 0 (replicate 50 60000) 60001).
  - left. apply lookup_empty.
  - reflexivity.
  - apply Forall_replicate. simpl. lia.
  - simpl. lia.
Defined.

(** ** Retry executor *)

Section Retry.

Context {T : Type} (operation : nat -> Res T) (key : string).

Lemma checkRateLimitNow_frame (w : World) :
  invocations (snd (checkRateLimitNow key w)) = invocations w
  /\ journal (snd (checkRateLimitNow key w)) = journal w.
Proof.
  unfold checkRateLimitNow.
  destruct (checkRateLimit _ key (rateLimits w)). split; reflexivity.
Qed.

Lemma rejections_le (entries : list Attempt) :
  (rejections entries <= length entries)%nat.
Proof. unfold rejections. apply List.filter_length_le. Qed.

(** The journal of a run: one entry per iteration, the [i]-th written at
    [attempt + i]; a refused iteration sleeps [waitTime] of its own index;
    every iteration either is refused or invokes the operation once; when
    all the iterations are refused the run ends in the [throw] after the
    loop, with [lastError] as it was. *)
Lemma withRetryFrom_journal (remaining : nat) :
  forall (attempt : nat) (lastError : option Error) (w : World),
  exists entries,
    journal (snd (withRetryFrom operation key remaining attempt lastError w))
    = journal w ++ entries
    /\ (length entries <= remaining)%nat
    /\ (forall i entry, entries !! i = Some entry ->
          attemptOf entry = (attempt + i)%nat)
    /\ (forall i a ms, entries !! i = Some (Rejected a ms) -> ms = waitTime a)
    /\ (invocations (snd (withRetryFrom operation key remaining attempt lastError w))
          + rejections entries
        = invocations w + length entries)%nat
    /\ (rejections entries = remaining ->
        fst (withRetryFrom operation key remaining attempt lastError w)
        = Threw (default (newError "Operation failed after all retries")
                         lastError)).
Proof.
  induction remaining as [|remaining IH]; intros attempt lastError w.
  - exists []. simpl. rewrite app_nil_r.
    repeat split; try lia; intros;
      match goal with
      | H : [] !! _ = Some _ |- _ => rewrite lookup_nil in H; discriminate
      end.
  - cbn [withRetryFrom].
    destruct (checkRateLimitNow_frame w) as [Hinv Hj].
    destruct (checkRateLimitNow key w) as [admitted w1]. simpl in Hinv, Hj.
    rewrite <- Hinv, <- Hj. clear Hinv Hj.
    destruct admitted; cbn [negb].
    + unfold invoke. destruct (operation (invocations w1)) as [v|error].
      * exists [Succeeded attempt]. simpl.
        repeat split; try (unfold rejections; simpl; lia).
        -- intros [|i] entry; simpl; [intros [= <-]; simpl; lia | discriminate].
        -- intros [|i] a ms; simpl; discriminate.
      * destruct (shouldRetry error); cbn [negb].
        -- match goal with
           | |- context [withRetryFrom _ _ _ _ ?le ?w'] =>
               destruct (IH (S attempt) le w')
                 as (entries & Hjournal & Hlen & Hidx & Hwait & Hcount & _)
           end.
           exists (BackedOff attempt error (waitTime attempt) :: entries).
           rewrite Hjournal. simpl. rewrite <- app_assoc. simpl.
           repeat split.
           ++ lia.
           ++ intros [|i] entry; simpl;
                [intros [= <-]; simpl; lia | intros H; rewrite (Hidx i _ H); lia].
           ++ intros [|i] a ms; simpl; [discriminate | apply Hwait].
           ++ simpl in Hcount. unfold rejections in *. simpl. lia.
           ++ intros Hall. pose proof (rejections_le entries).
              unfold rejections in *. simpl in Hall. lia.
        -- exists [GaveUp attempt error]. simpl.
           repeat split; try (unfold rejections; simpl; lia).
           ++ intros [|i] entry; simpl; [intros [= <-]; simpl; lia | discriminate].
           ++ intros [|i] a ms; simpl; discriminate.
    + match goal with
      | |- context [withRetryFrom _ _ _ _ ?le ?w'] =>
          destruct (IH (S attempt) le w')
            as (entries & Hjournal & Hlen & Hidx & Hwait & Hcount & Hall)
      end.
      exists (Rejected attempt (waitTime attempt) :: entries).
      rewrite Hjournal. simpl. rewrite <- app_assoc. simpl.
      repeat split.
      * lia.
      * intros [|i] entry; simpl;
          [intros [= <-]; simpl; lia | intros H; rewrite (Hidx i _ H); lia].
      * intros [|i] a ms; simpl; [intros [= <- <-]; reflexivity | apply Hwait].
      * simpl in Hcount. unfold rejections in *. simpl. lia.
      * intros Hrej. apply Hall. unfold rejections in *. simpl in Hrej. lia.
Qed.

End Retry.

(** C1, as stated, fails.  With the window of the key used up at the first
    check and over at the later ones, an operation that fails with a
    retryable error every time is invoked twice, not [maxRetries] = 3
    times: the refused iteration ran at [attempt] 0 and the next one at
    [attempt] 1.  In a world where nothing is refused the same operation is
    invoked three times. *)
Lemma withRetry_rejection_costs_an_attempt :
  let operation : nat -> Res unit := fun _ => Threw Sample.networkError in
  withRetry operation "llm-api" Sample.saturated
  = (Threw Sample.networkError,
     {| rateLimits := {[ "llm-api" := {| count := 2; resetTime := 130000 |} ]};
        clock := clock Sample.saturated;
        ticks := 3;
        invocations := 2;
        journal := [Rejected 0 1000;
                    BackedOff 1 Sample.networkError 2000;
                    BackedOff 2 Sample.networkError 4000] |})
  /\ invocations (snd (withRetry operation "llm-api" Sample.idle)) = 3%nat.
Proof.
  split; vm_compute; reflexivity.
Qed.

(** C1, amended: at every attempt at which [checkRateLimit] refuses the
    key, [withRetry] sleeps for [min(maxDelay, baseDelay * 2^attempt)] and
    goes on to the next attempt index without invoking the operation; a
    refusal uses up one of the [maxRetries] iterations, so the invocations
    of the operation and the refusals together never exceed [maxRetries],
    and when every iteration is refused the operation is never invoked and
    the error thrown is the one made after the loop. *)
Theorem withRetry_rejection_takes_attempt {T : Type}
    (operation : nat -> Res T) (key : string) (w : World) :
  exists entries,
    journal (snd (withRetry operation key w)) = journal w ++ entries
    /\ (forall i a ms, entries !! i = Some (Rejected a ms) ->
          a = i
          /\ ms = Z.min (maxDelay RETRY_CONFIG)
                        (baseDelay RETRY_CONFIG * 2 ^ Z.of_nat a)
          /\ (forall next, entries !! S i = Some next -> attemptOf next = S a))
    /\ (invocations (snd (withRetry operation key w)) + rejections entries
        = invocations w + length entries)%nat
    /\ (length entries <= maxRetries RETRY_CONFIG)%nat
    /\ (rejections entries = maxRetries RETRY_CONFIG ->
        fst (withRetry operation key w)
        = Threw (newError "Operation failed after all retries")
        /\ invocations (snd (withRetry operation key w)) = invocations w).
Proof.
  unfold withRetry.
  destruct (withRetryFrom_journal operation key (maxRetries RETRY_CONFIG) 0 None w)
    as (entries & Hjournal & Hlen & Hidx & Hwait & Hcount & Hall).
  exists entries. split; [exact Hjournal|].
  split; [|split; [exact Hcount | split; [exact Hlen|]]].
  - intros i a ms Hi.
    pose proof (Hidx i _ Hi) as Ha. simpl in Ha. subst a.
    split; [reflexivity|].
    split; [exact (Hwait _ _ _ Hi)|].
    intros next Hnext. exact (Hidx _ _ Hnext).
  - intros Hrej. split; [exact (Hall Hrej)|].
    pose proof (rejections_le entries). lia.
Qed.

(** ** Retrying and giving up *)

Section RetryOutcomes.

Context {T : Type} (operation : nat -> Res T) (key : string).

Lemma shouldRetry_permanent (e : Error) :
  error_name e <> "NetworkError" ->
  includes (error_message e) "rate limit" = false ->
  (forall r, error_response e = Some r ->
     status r <> 429 /\ status r <> 502 /\ status r <> 503) ->
  shouldRetry e = false.
Proof.
  intros Hname Hmsg Hstatus. unfold shouldRetry.
  apply String.eqb_neq in Hname. rewrite Hname, Hmsg. simpl.
  destruct (error_response e) as [r|]; [|reflexivity].
  destruct (Hstatus r eq_refl) as (H1 & H2 & H3).
  apply Z.eqb_neq in H1, H2, H3. rewrite H1, H2, H3. reflexivity.
Qed.

(** The answers of the limiter depend on its map and on the clock only. *)
Lemma admits_frame (n : nat) :
  forall w w' : World,
    rateLimits w = rateLimits w' -> clock w = clock w' -> ticks w = ticks w' ->
    admits n key w = admits n key w'.
Proof.
  induction n as [|n IH]; intros w w' Hl Hc Ht; [reflexivity|].
  cbn [admits]. unfold checkRateLimitNow. rewrite Hl, Hc, Ht.
  destruct (checkRateLimit _ key (rateLimits w')) as [admitted limits].
  f_equal. apply IH; reflexivity.
Qed.

(** An admitted attempt whose error [shouldRetry] refuses ends the run. *)
Lemma withRetryFrom_gives_up (remaining attempt : nat)
    (lastError : option Error) (w : World) (e : Error) :
  admits 1 key w = true ->
  operation (invocations w) = Threw e ->
  shouldRetry e = false ->
  fst (withRetryFrom operation key (S remaining) attempt lastError w) = Threw e
  /\ invocations (snd (withRetryFrom operation key (S remaining) attempt lastError w))
     = S (invocations w).
Proof.
  intros Hadm Hop Hperm. cbn [withRetryFrom admits] in *.
  destruct (checkRateLimitNow_frame key w) as [Hinv _].
  destruct (checkRateLimitNow key w) as [admitted w1]. simpl in Hinv.
  rewrite andb_true_r in Hadm. subst admitted. cbn [negb].
  unfold invoke. rewrite Hinv, Hop, Hperm. split; reflexivity.
Qed.

(** [n] admitted attempts that fail with errors [shouldRetry] accepts,
    followed by an admitted attempt that succeeds. *)
Lemma withRetryFrom_recovers (n : nat) (v : T) :
  forall (attempt : nat) (lastError : option Error) (w : World),
    admits (S n) key w = true ->
    (forall k, (k < n)%nat ->
       exists e, operation (invocations w + k)%nat = Threw e
                 /\ shouldRetry e = true) ->
    operation (invocations w + n)%nat = Returned v ->
    fst (withRetryFrom operation key (S n) attempt lastError w) = Returned v
    /\ invocations (snd (withRetryFrom operation key (S n) attempt lastError w))
       = (invocations w + S n)%nat.
Proof.
  induction n as [|n IH]; intros attempt lastError w Hadm Hfail Hok.
  - cbn [withRetryFrom admits] in *.
    destruct (checkRateLimitNow_frame key w) as [Hinv _].
    destruct (checkRateLimitNow key w) as [admitted w1]. simpl in Hinv.
    rewrite andb_true_r in Hadm. subst admitted. cbn [negb].
    unfold invoke. rewrite Hinv. rewrite Nat.add_0_r in Hok. rewrite Hok.
    simpl. split; [reflexivity | lia].
  - remember (S n) as m eqn:Hm.
    cbn [withRetryFrom admits] in *.
    destruct (checkRateLimitNow_frame key w) as [Hinv _].
    destruct (checkRateLimitNow key w) as [admitted w1]. simpl in Hinv.
    apply andb_true_iff in Hadm as [-> Hadm]. cbn [negb].
    destruct (Hfail 0%nat) as (e & He & Hretry); [lia|].
    rewrite Nat.add_0_r in He.
    unfold invoke. rewrite Hinv, He, Hretry. cbn [negb]. subst m.
    match goal with
    | |- context [withRetryFrom _ _ _ _ ?le ?w'] =>
        destruct (IH (S attempt) le w') as [Hres Hcount]
    end.
    + erewrite admits_frame; [exact Hadm | reflexivity ..].
    + intros k Hk. simpl.
      destruct (Hfail (S k)) as (e' & He' & Hretry'); [lia|].
      exists e'. split; [|exact Hretry'].
      rewrite <- He'. f_equal. lia.
    + simpl. rewrite <- Hok. f_equal. lia.
    + split; [exact Hres|]. rewrite Hcount. simpl. lia.
Qed.

(** C3: with the rate limiter admitting, an operation that always throws
    an error that is not a [NetworkError], does not mention a rate limit
    and has no status 429, 502 or 503 is invoked once and that error
    reaches the caller; an operation that throws retryable errors on its
    first [maxRetries - 1] invocations and returns on the next has its
    value returned by [withRetry], after [maxRetries] invocations. *)
Theorem withRetry_permanent_and_transient (w : World) :
  (forall e : Error,
     admits 1 key w = true ->
     (forall k, operation k = Threw e) ->
     error_name e <> "NetworkError" ->
     includes (error_message e) "rate limit" = false ->
     (forall r, error_response e = Some r ->
        status r <> 429 /\ status r <> 502 /\ status r <> 503) ->
     fst (withRetry operation key w) = Threw e
     /\ invocations (snd (withRetry operation key w)) = S (invocations w))
  /\ (forall v : T,
       admits (maxRetries RETRY_CONFIG) key w = true ->
       (forall k, (k < maxRetries RETRY_CONFIG - 1)%nat ->
          exists e, operation (invocations w + k)%nat = Threw e
                    /\ shouldRetry e = true) ->
       operation (invocations w + (maxRetries RETRY_CONFIG - 1))%nat
       = Returned v ->
       fst (withRetry operation key w) = Returned v
       /\ (invocations (snd (withRetry operation key w)) - invocations w
           <= maxRetries RETRY_CONFIG)%nat
       /\ invocations (snd (withRetry operation key w))
          = (invocations w + maxRetries RETRY_CONFIG)%nat).
Proof.
  split.
  - intros e Hadm Hop Hname Hmsg Hstatus. unfold withRetry.
    apply withRetryFrom_gives_up; [exact Hadm | apply Hop |].
    apply shouldRetry_permanent; assumption.
  - intros v Hadm Hfail Hok. unfold withRetry.
    destruct (withRetryFrom_recovers (maxRetries RETRY_CONFIG - 1) v 0%nat None w
                Hadm Hfail Hok) as [Hres Hcount].
    change (S (maxRetries RETRY_CONFIG - 1)) with (maxRetries RETRY_CONFIG) in *.
    split; [exact Hres|]. split; [|exact Hcount]. rewrite Hcount. lia.
Qed.

End RetryOutcomes.

Lemma withRetry_permanent_and_transient_witness :
  let failing : nat -> Res Z := fun _ => Threw Sample.badRequest in
  let flaky : nat -> Res Z :=
    fun k => if (k <? 2)%nat then Threw Sample.networkError else Returned 7 in
  (fst (withRetry failing "llm-api" Sample.idle) = Threw Sample.badRequest
   /\ invocations (snd (withRetry failing "llm-api" Sample.idle)) = 1%nat)
  /\ (fst (withRetry flaky "llm-api" Sample.idle) = Returned 7
      /\ (invocations (snd (withRetry flaky "llm-api" Sample.idle)) - 0
          <= maxRetries RETRY_CONFIG)%nat
      /\ invocations (snd (withRetry flaky "llm-api" Sample.idle)) = 3%nat).
Proof.
  intros failing flaky. split.
  - apply (proj1 (withRetry_permanent_and_transient failing "llm-api" Sample.idle)
             Sample.badRequest).
    + reflexivity.
    + intros k. reflexivity.
    + discriminate.
    + reflexivity.
    + discriminate.
  - apply (proj2 (withRetry_permanent_and_transient flaky "llm-api" Sample.idle) 7).
    + reflexivity.
    + intros [|[|k]] Hk.
      * exists Sample.networkError. split; reflexivity.
      * exists Sample.networkError. split; reflexivity.
      * simpl in Hk. lia.
    + reflexivity.
Defined.

(** ** The message queue *)

Section QueueFacts.

Context {Env : Type} (pmi : Message.t -> M Env ActionResult.t).

Lemma admitted_length (messages : list Message.t) :
  (length (admitted messages) <= length messages)%nat.
Proof.
  induction messages as [|m later IH]; simpl; [lia|].
  destruct (validateMessage m); simpl; lia.
Qed.

Lemma admitted_app (a b : list Message.t) :
  admitted (a ++ b) = admitted a ++ admitted b.
Proof.
  induction a as [|m a IH]; simpl; [reflexivity|].
  destruct (validateMessage m); simpl; rewrite IH; reflexivity.
Qed.

(** Calls that arrive during a drain only append to the queue. *)
Lemma foldl_arrive (messages : list Message.t) :
  forall p : Processor Env,
    foldl arrive p messages
    = set_messageQueue (messageQueue p ++ admitted messages) p.
Proof.
  induction messages as [|m later IH]; intros p.
  - simpl. rewrite app_nil_r. destruct p; reflexivity.
  - simpl. rewrite IH. unfold arrive, enqueue.
    destruct (validateMessage m) as [m'|e]; simpl; [|reflexivity].
    rewrite <- app_assoc. reflexivity.
Qed.

Lemma concat_take_S (n : nat) (inc : list (list Message.t)) :
  concat (take (S n) inc) = hd [] inc ++ concat (take n (tail inc)).
Proof. destruct inc; simpl; [rewrite take_nil|]; reflexivity. Qed.

Lemma concat_hd_tail (inc : list (list Message.t)) :
  length (concat inc)
  = (length (hd [] inc) + length (concat (tail inc)))%nat.
Proof. destruct inc; simpl; [|rewrite length_app]; reflexivity. Qed.

(** Every outcome in a replay is an outcome of [processMessageInternal] on
    the message it is paired with. *)
Lemma replay_outcomes (messages : list Message.t) :
  forall e : Env,
    Forall (fun x => exists e', snd x = fst (pmi (fst x) e'))
           (fst (replay pmi messages e)).
Proof.
  induction messages as [|m later IH]; intros e; simpl; [constructor|].
  destruct (pmi m e) as [r e1] eqn:Hpmi.
  specialize (IH e1). destruct (replay pmi later e1) as [log e2].
  simpl in *. constructor; [|exact IH].
  exists e. simpl. rewrite Hpmi. reflexivity.
Qed.

(** The drain loop, given enough fuel: it ends; the messages it handed to
    [processMessageInternal] followed by those left in the queue are the
    messages queued at the start followed by those that arrived meanwhile;
    its outcome is the outcome of the last message it handed over. *)
Lemma drain_spec (fuel : nat) :
  forall (result : ActionResult.t) (p : Processor Env),
    (length (messageQueue p) + length (concat (incoming p)) < fuel)%nat ->
    exists r p' log,
      drain pmi fuel result p = Some (r, p')
      /\ processingQueue p' = processingQueue p
      /\ drained p' = drained p ++ log
      /\ log.*1 ++ messageQueue p'
         = messageQueue p ++ admitted (concat (take (length log) (incoming p)))
      /\ incoming p' = drop (length log) (incoming p)
      /\ (log, env p') = replay pmi (log.*1) (env p)
      /\ r = default (Returned result) (last (log.*2))
      /\ (forall res, r = Returned res -> messageQueue p' = []).
Proof.
  induction fuel as [|fuel IH]; intros result p Hfuel; [lia|].
  cbn [drain]. destruct (messageQueue p) as [|m rest] eqn:Hq.
  - exists (Returned result), p, []. simpl.
    rewrite !app_nil_r, Hq.
    repeat split; reflexivity || assumption.
  - unfold awaitInternal. cbn [env set_messageQueue incoming drained
      messageQueue processingQueue].
    destruct (pmi m (env p)) as [r1 e1] eqn:Hpmi.
    rewrite foldl_arrive. cbn [messageQueue set_messageQueue].
    pose proof (admitted_length (hd [] (incoming p))) as Hadm.
    pose proof (concat_hd_tail (incoming p)) as Hinc.
    simpl in Hfuel.
    destruct r1 as [res1|err].
    + edestruct (IH res1) as (r & p' & log & Hrun & Hflag & Hlog & Hfifo
                               & Hleft & Hreplay & Hout & Hempty);
        [|rewrite Hrun].
      { cbn [messageQueue incoming set_messageQueue].
        rewrite length_app. lia. }
      cbn [messageQueue incoming drained env processingQueue
           set_messageQueue] in *.
      exists r, p', ((m, Returned res1) :: log).
      split; [reflexivity|]. split; [exact Hflag|].
      split; [rewrite Hlog, <- app_assoc; reflexivity|].
      split.
      { cbn [fmap list_fmap fst length]. simpl. rewrite Hfifo.
        rewrite concat_take_S, admitted_app, <- !app_assoc. reflexivity. }
      split; [rewrite Hleft; destruct (incoming p); simpl;
              [rewrite !drop_nil|]; reflexivity|].
      split.
      { rewrite fmap_cons. cbn [replay fst]. rewrite Hpmi, <- Hreplay.
        reflexivity. }
      split; [|exact Hempty].
      rewrite Hout. destruct log as [|x log]; [reflexivity|].
      rewrite !fmap_cons, last_cons_cons, last_cons.
      destruct (last log.*2); reflexivity.
    + eexists (Threw err), _, [(m, Threw err)].
      split; [reflexivity|].
      cbn [messageQueue incoming drained env processingQueue set_messageQueue].
      split; [reflexivity|]. split; [reflexivity|].
      split.
      { simpl. rewrite concat_take_S, take_0. simpl. rewrite app_nil_r.
        reflexivity. }
      split; [destruct (incoming p); reflexivity|].
      split; [simpl; rewrite Hpmi; reflexivity|].
      split; [reflexivity | discriminate].
Qed.

End QueueFacts.

Section QueueClaims.

Context {Env : Type} (pmi : Message.t -> M Env ActionResult.t).

(** A call that finds a drain running: validate, push, acknowledge. *)
Lemma processMessage_while_draining (m m' : Message.t) (p : Processor Env) :
  validateMessage m = Returned m' ->
  processingQueue p = true ->
  processMessage pmi m p
  = Some (Returned queued, set_messageQueue (messageQueue p ++ [m']) p).
Proof.
  intros Hvalid Hflag. unfold processMessage, enqueue. rewrite Hvalid.
  cbn [processingQueue set_messageQueue]. rewrite Hflag. reflexivity.
Qed.

(** A call that finds the processor at rest: it drains, and resets the flag
    however the drain ends. *)
Lemma processMessage_at_rest (m m' : Message.t) (p : Processor Env) :
  validateMessage m = Returned m' ->
  processingQueue p = false ->
  exists r p' log,
    processMessage pmi m p = Some (r, p')
    /\ processingQueue p' = false
    /\ drained p' = drained p ++ log
    /\ log.*1 ++ messageQueue p'
       = (messageQueue p ++ [m'])
         ++ admitted (concat (take (length log) (incoming p)))
    /\ (log, env p') = replay pmi (log.*1) (env p)
    /\ last (log.*2) = Some r
    /\ (forall res, r = Returned res -> messageQueue p' = [])
    /\ ((forall x e, exists res, fst (pmi x e) = Returned res) ->
        exists res, r = Returned res).
Proof.
  intros Hvalid Hflag. unfold processMessage, enqueue. rewrite Hvalid.
  cbn [processingQueue set_messageQueue]. rewrite Hflag. cbn [negb].
  unfold processMessageQueue.
  match goal with
  | |- context [drain pmi ?fuel ?result ?p1] =>
      destruct (drain_spec pmi fuel result p1)
        as (r & p2 & log & Hrun & _ & Hlog & Hfifo & _ & Hreplay & Hout & Hempty)
  end.
  { unfold drainBound. lia. }
  rewrite Hrun.
  cbn [messageQueue incoming drained env processingQueue set_messageQueue
       set_processingQueue] in *.
  exists r, (set_processingQueue false p2), log.
  cbn [messageQueue incoming drained env processingQueue set_processingQueue].
  repeat (split; [reflexivity || assumption|]).
  assert (Hlast : last log.*2 = Some r).
  { destruct log as [|x log].
    - simpl in Hout, Hfifo. rewrite (Hempty _ Hout) in Hfifo.
      destruct (messageQueue p); discriminate.
    - rewrite Hout. rewrite fmap_cons, last_cons.
      destruct (last log.*2); reflexivity. }
  split; [exact Hlast|]. split; [exact Hempty|].
  intros Hreturns.
  apply last_Some_elem_of, list_elem_of_fmap in Hlast as (x & -> & Hx).
  pose proof (replay_outcomes pmi (log.*1) (env p)) as Hall.
  rewrite <- Hreplay in Hall. cbn [fst] in Hall.
  rewrite Forall_forall in Hall. destruct (Hall x Hx) as (e' & ->).
  apply Hreturns.
Qed.

(** What the drain loop does for a call that arrives meanwhile is what
    [processMessage] does when it finds [processingQueue] set. *)
Lemma arrive_processMessage (m : Message.t) (p : Processor Env) :
  processingQueue p = true ->
  exists r, processMessage pmi m p = Some (r, arrive p m).
Proof.
  intros Hflag. unfold processMessage, arrive, enqueue.
  destruct (validateMessage m) as [m'|e]; cbn [snd]; [|eauto].
  cbn [processingQueue set_messageQueue]. rewrite Hflag. eauto.
Qed.

(** C4: a validated message given to [processMessage] while a drain runs
    is appended to the queue and the call returns the acknowledgment at
    once, nothing else having happened; given to a processor at rest, the
    call hands the queued messages to [processMessageInternal] one at a
    time, oldest first, and its outcome is the outcome of the last message
    it handed over. *)
Theorem processMessage_queues_or_drains (m m' : Message.t) (p : Processor Env) :
  validateMessage m = Returned m' ->
  (processingQueue p = true ->
     processMessage pmi m p
     = Some (Returned queued, set_messageQueue (messageQueue p ++ [m']) p)
     /\ ActionResult.text queued = lit "Message queued for processing"
     /\ ActionResult.shouldSendMessage queued = false)
  /\ (processingQueue p = false ->
      exists r p' log,
        processMessage pmi m p = Some (r, p')
        /\ drained p' = drained p ++ log
        /\ log.*1 ++ messageQueue p'
           = (messageQueue p ++ [m'])
             ++ admitted (concat (take (length log) (incoming p)))
        /\ (log, env p') = replay pmi (log.*1) (env p)
        /\ last (log.*2) = Some r
        /\ (forall res, r = Returned res -> messageQueue p' = [])
        /\ ((forall x e, exists res, fst (pmi x e) = Returned res) ->
            exists res, r = Returned res)).
Proof.
  intros Hvalid. split; intros Hflag.
  - split; [apply processMessage_while_draining; assumption|].
    split; reflexivity.
  - destruct (processMessage_at_rest m m' p Hvalid Hflag)
      as (r & p' & log & Hrun & _ & Hrest).
    exists r, p', log. split; assumption.
Qed.

(** C7: a message without a truthy platform, without a non-empty string as
    text, or without an author that has a truthy username makes
    [validateMessage] throw, and [processMessage] ends with that error and
    leaves the processor, its queue included, as it was. *)
Theorem processMessage_rejects_invalid (m : Message.t) (p : Processor Env) :
  truthy (Message.platform m) = false
  \/ truthy (Message.text m) = false
  \/ isString (Message.text m) = false
  \/ Message.author m = None
  \/ (exists a, Message.author m = Some a /\ truthy (Author.username a) = false) ->
  exists e p',
    validateMessage m = Threw e
    /\ processMessage pmi m p = Some (Threw e, p')
    /\ messageQueue p' = messageQueue p
    /\ p' = p.
Proof.
  intros Hbad. destruct (validateMessage_rejects m Hbad) as [e He].
  exists e, p. split; [exact He|].
  split; [|split; reflexivity].
  unfold processMessage, enqueue. rewrite He. reflexivity.
Qed.

(** C10, amended: [processMessageQueue] always ends with [processingQueue]
    false, whether it returns or throws; so does every call of
    [processMessage] that found it false (whether validation fails, the
    drain returns or a message throws); a later call that finds messages
    left in the queue starts its drain with the oldest of them.  A call
    that finds [processingQueue] true returns the acknowledgment and
    leaves it true. *)
Theorem processMessageQueue_resets_flag (p : Processor Env) :
  (exists r p', processMessageQueue pmi p = Some (r, p')
                /\ processingQueue p' = false)
  /\ (forall m, processingQueue p = false ->
       exists r p', processMessage pmi m p = Some (r, p')
                    /\ processingQueue p' = false)
  /\ (forall m m' m0 rest,
       processingQueue p = false ->
       validateMessage m = Returned m' ->
       messageQueue p = m0 :: rest ->
       exists r p' r0 log,
         processMessage pmi m p = Some (r, p')
         /\ drained p' = drained p ++ (m0, r0) :: log)
  /\ (forall m m',
       processingQueue p = true ->
       validateMessage m = Returned m' ->
       exists p', processMessage pmi m p = Some (Returned queued, p')
                  /\ processingQueue p' = true).
Proof.
  split; [|split; [|split]].
  - unfold processMessageQueue.
    match goal with
    | |- context [drain pmi ?fuel ?result ?p1] =>
        destruct (drain_spec pmi fuel result p1) as (r & p2 & log & Hrun & _)
    end.
    { unfold drainBound. lia. }
    rewrite Hrun. exists r, (set_processingQueue false p2).
    split; reflexivity.
  - intros m Hflag. destruct (validateMessage m) as [m'|e] eqn:Hvalid.
    + destruct (processMessage_at_rest m m' p Hvalid Hflag)
        as (r & p' & log & Hrun & Hreset & _).
      exists r, p'. split; assumption.
    + exists (Threw e), p. split; [|exact Hflag].
      unfold processMessage, enqueue. rewrite Hvalid. reflexivity.
  - intros m m' m0 rest Hflag Hvalid Hq.
    destruct (processMessage_at_rest m m' p Hvalid Hflag)
      as (r & p' & log & Hrun & _ & Hlog & Hfifo & _ & Hlast & _).
    destruct log as [|[m1 r1] log]; [discriminate|].
    rewrite Hq in Hfifo. simpl in Hfifo. injection Hfifo as -> _.
    exists r, p', r1, log. split; assumption.
  - intros m m' Hflag Hvalid.
    rewrite (processMessage_while_draining m m' p Hvalid Hflag).
    eexists. split; [reflexivity | exact Hflag].
Qed.

End QueueClaims.

Lemma processMessage_queues_or_drains_witness :
  let m := Sample.message (JsString (lit " hello ")) in
  let m' := Sample.message (JsString (lit "hello")) in
  (processMessage Sample.echo m Sample.draining
   = Some (Returned queued,
           set_messageQueue (messageQueue Sample.draining ++ [m']) Sample.draining)
   /\ ActionResult.text queued = lit "Message queued for processing"
   /\ ActionResult.shouldSendMessage queued = false)
  /\ (exists r p' log,
        processMessage Sample.echo m Sample.resting = Some (r, p')
        /\ drained p' = drained Sample.resting ++ log
        /\ log.*1 ++ messageQueue p'
           = (messageQueue Sample.resting ++ [m'])
             ++ admitted (concat (take (length log) (incoming Sample.resting)))
        /\ (log, env p') = replay Sample.echo (log.*1) (env Sample.resting)
        /\ last (log.*2) = Some r
        /\ (forall res, r = Returned res -> messageQueue p' = [])
        /\ ((forall x e, exists res, fst (Sample.echo x e) = Returned res) ->
            exists res, r = Returned res)).
Proof.
  intros m m'. split.
  - apply (proj1 (processMessage_queues_or_drains Sample.echo m m' Sample.draining
                    eq_refl)).
    reflexivity.
  - apply (proj2 (processMessage_queues_or_drains Sample.echo m m' Sample.resting
                    eq_refl)).
    reflexivity.
Defined.

Lemma processMessage_rejects_invalid_witness :
  exists e p',
    validateMessage (Sample.message JsUndefined) = Threw e
    /\ processMessage Sample.echo (Sample.message JsUndefined) Sample.resting
       = Some (Threw e, p')
    /\ messageQueue p' = messageQueue Sample.resting
    /\ p' = Sample.resting.
Proof.
  apply (processMessage_rejects_invalid Sample.echo).
  right. left. reflexivity.
Defined.

(** C10, as stated, fails: a call of [processMessage] made while a drain is
    running completes, with the acknowledgment, and [processingQueue] is
    still true. *)
Lemma processMessage_leaves_draining :
  exists p',
    processMessage Sample.echo (Sample.message (JsString (lit "hello")))
      Sample.draining
    = Some (Returned queued, p')
    /\ processingQueue Sample.draining = true
    /\ processingQueue p' = true.
Proof. eexists. split; [reflexivity|]. split; reflexivity. Qed.

Lemma processMessageQueue_resets_flag_witness :
  exists r p',
    processMessage Sample.echo (Sample.message (JsString (lit "hello")))
      Sample.resting
    = Some (r, p')
    /\ processingQueue p' = false.
Proof.
  apply (proj1 (proj2 (processMessageQueue_resets_flag Sample.echo Sample.resting))).
  reflexivity.
Defined.

(** ** Memory store *)

Import Memory.

Section MemoryFacts.

Context (type : string) (ttl : Z) (userId : string).

(** [getList] on a store that is there: one request is used up, nothing
    is written, and the result is the parsed document or the empty list. *)
Lemma getList_available (mem : Memory) (ns : KVNamespace) :
  isAvailable mem = true -> kv mem = Some ns ->
  getList type userId mem
  = (Returned
       match hd None (faults ns) with
       | Some _ => JArray []
       | None =>
           match live (keyOf type userId) ns with
           | Some (Document v) => v
           | _ => JArray []
           end
       end,
     {| kv := Some {| entries := entries ns; time := time ns;
                      faults := tail (faults ns) |};
        isAvailable := true |}).
Proof.
  intros Hav Hkv. unfold getList, tryCatch, bind, onKv, get, request, ret.
  rewrite Hav, Hkv. cbn [negb].
  destruct (hd None (faults ns)) as [e|]; [reflexivity|].
  destruct (live (keyOf type userId) ns) as [[| |v]|]; reflexivity.
Qed.

Lemma getList_total (mem : Memory) :
  exists v mem', getList type userId mem = (Returned v, mem')
                 /\ stored mem' = stored mem
                 /\ isAvailable mem' = isAvailable mem.
Proof.
  destruct (isAvailable mem) eqn:Hav.
  - destruct (kv mem) as [ns|] eqn:Hkv.
    + rewrite (getList_available mem ns Hav Hkv). do 2 eexists.
      split; [reflexivity|]. unfold stored. rewrite Hkv. split; reflexivity.
    + unfold getList, tryCatch, bind, onKv, ret. rewrite Hav, Hkv.
      do 2 eexists. split; [reflexivity|]. split; [reflexivity | assumption].
  - unfold getList. rewrite Hav. do 2 eexists.
    split; [reflexivity|]. split; [reflexivity | assumption].
Qed.

Lemma getList_degraded (mem : Memory) :
  readDegraded (keyOf type userId) mem ->
  fst (getList type userId mem) = Returned (JArray []).
Proof.
  intros Hbad. destruct (isAvailable mem) eqn:Hav;
    [|unfold getList; rewrite Hav; reflexivity].
  destruct (kv mem) as [ns|] eqn:Hkv.
  - rewrite (getList_available mem ns Hav Hkv). simpl.
    destruct Hbad as [H|[H|(ns' & Hns & H)]]; [congruence | congruence |].
    rewrite Hkv in Hns. injection Hns as <-.
    destruct H as [(e & ->)|[->|[->| ->]]]; try reflexivity;
      destruct (hd None (faults ns)); reflexivity.
  - unfold getList, tryCatch, bind, onKv, ret. rewrite Hav, Hkv. reflexivity.
Qed.

(** [storeItem] never throws, and writes nothing but the key of the user. *)
Lemma storeItem_total (item : Json) (mem : Memory) :
  exists mem', storeItem type ttl userId item mem = (Returned tt, mem').
Proof.
  unfold storeItem. destruct (isAvailable mem); cbn [negb]; [|eauto].
  unfold tryCatch, bind.
  destruct (getList type userId mem) as [[existing|e] mem1]; [|unfold ret; eauto].
  destruct (append existing item) as [items|e]; [|unfold ret; eauto].
  destruct (onKv _ mem1) as [[[]|e] mem2]; unfold ret; eauto.
Qed.

Lemma storeItem_noop (item : Json) (mem : Memory) :
  writeFails mem ->
  stored (snd (storeItem type ttl userId item mem)) = stored mem.
Proof.
  intros Hfail. unfold storeItem.
  destruct (isAvailable mem) eqn:Hav; cbn [negb]; [|reflexivity].
  unfold tryCatch, bind.
  destruct (kv mem) as [ns|] eqn:Hkv.
  - rewrite (getList_available mem ns Hav Hkv).
    destruct Hfail as [H|[H|(ns' & e & Hns & H)]]; [congruence | congruence |].
    rewrite Hkv in Hns. injection Hns as <-.
    assert (Hhd : hd None (tail (faults ns)) = Some e).
    { destruct (faults ns) as [|f1 [|f2 rest]]; try discriminate.
      simpl in H. injection H as ->. reflexivity. }
    match goal with |- context [append ?v item] => destruct (append v item) end;
      [|unfold stored; rewrite Hkv; reflexivity].
    unfold onKv, put, request. cbn [kv faults]. rewrite Hhd.
    unfold stored. rewrite Hkv. reflexivity.
  - destruct (getList_total mem) as (v & mem1 & Hget & Hstored & _).
    rewrite Hget.
    assert (Hkv1 : kv mem1 = None).
    { unfold stored in Hstored. rewrite Hkv in Hstored.
      destruct (kv mem1); [discriminate | reflexivity]. }
    destruct (append v item); [|exact Hstored].
    unfold onKv. rewrite Hkv1. exact Hstored.
Qed.

End MemoryFacts.

(** C8: [getConversations] and [getLongTerm] never throw, and return the
    empty list when the store is unavailable, the key is absent or the read
    fails; [storeConversation] and [storeLongTerm] never throw, and leave
    the stored entries as they were when the store is unavailable or the
    write fails. *)
Theorem memory_degrades_silently (mem : Memory) (userId : string) (item : Json) :
  (exists v, fst (getConversations userId mem) = Returned v)
  /\ (exists v, fst (getLongTerm userId mem) = Returned v)
  /\ (readDegraded (keyOf MEMORY_TYPES_CONVERSATION userId) mem ->
      fst (getConversations userId mem) = Returned (JArray []))
  /\ (readDegraded (keyOf MEMORY_TYPES_LONG_TERM userId) mem ->
      fst (getLongTerm userId mem) = Returned (JArray []))
  /\ fst (storeConversation userId item mem) = Returned tt
  /\ fst (storeLongTerm userId item mem) = Returned tt
  /\ (writeFails mem ->
      stored (snd (storeConversation userId item mem)) = stored mem)
  /\ (writeFails mem ->
      stored (snd (storeLongTerm userId item mem)) = stored mem).
Proof.
  unfold getConversations, getLongTerm, storeConversation, storeLongTerm.
  split.
  { destruct (getList_total MEMORY_TYPES_CONVERSATION userId mem)
      as (v & mem' & -> & _). eauto. }
  split.
  { destruct (getList_total MEMORY_TYPES_LONG_TERM userId mem)
      as (v & mem' & -> & _). eauto. }
  split; [apply getList_degraded|].
  split; [apply getList_degraded|].
  split.
  { destruct (storeItem_total MEMORY_TYPES_CONVERSATION TTL_CONVERSATION
                userId item mem) as (mem' & ->). reflexivity. }
  split.
  { destruct (storeItem_total MEMORY_TYPES_LONG_TERM TTL_LONG_TERM
                userId item mem) as (mem' & ->). reflexivity. }
  split; apply storeItem_noop.
Qed.

Lemma memory_degrades_silently_witness :
  fst (getConversations "42" (constructor None)) = Returned (JArray [])
  /\ stored (snd (storeConversation "42" (Sample.turn "user" "again")
                    (constructor (Some Sample.kvFlaky))))
     = stored (constructor (Some Sample.kvFlaky)).
Proof.
  split.
  - apply (proj1 (proj2 (proj2
      (memory_degrades_silently (constructor None) "42" JNull)))).
    left. reflexivity.
  - apply (proj1 (proj2 (proj2 (proj2 (proj2 (proj2 (proj2
      (memory_degrades_silently (constructor (Some Sample.kvFlaky)) "42"
         (Sample.turn "user" "again"))))))))).
    right. right. exists Sample.kvFlaky, Sample.networkError.
    split; reflexivity.
Defined.

Section RoundTrip.

Context (type : string) (ttl : Z) (userId : string).

(** [storeItem] when both of its requests go through and the key holds a
    list, or nothing: the list with the item appended is written under the
    key, to expire [ttl] seconds from now. *)
Lemma storeItem_appends (item : Json) (mem : Memory) (ns : KVNamespace)
    (previous : list Json) :
  isAvailable mem = true -> kv mem = Some ns ->
  hd None (faults ns) = None -> hd None (tail (faults ns)) = None ->
  live (keyOf type userId) ns = None /\ previous = []
  \/ live (keyOf type userId) ns = Some (Document (JArray previous)) ->
  storeItem type ttl userId item mem
  = (Returned tt,
     {| kv := Some {| entries :=
                        <[keyOf type userId :=
                            (Document (JArray (previous ++ [item])),
                             time ns + ttl)]> (entries ns);
                      time := time ns;
                      faults := tail (tail (faults ns)) |};
        isAvailable := true |}).
Proof.
  intros Hav Hkv Hget Hput Hprev. unfold storeItem. rewrite Hav. cbn [negb].
  unfold tryCatch, bind.
  rewrite (getList_available type userId mem ns Hav Hkv), Hget.
  destruct Hprev as [[-> ->] | ->]; cbn [append truthyJson spread];
    unfold onKv, put, request; cbn [kv faults entries time isAvailable];
    rewrite Hput; reflexivity.
Qed.

End RoundTrip.

(** C9: with the store available and its requests going through, after
    [storeConversation(u, m)] a call of [getConversations(u)] returns the
    list stored before (the empty list if there was none) followed by [m],
    as long as fewer than [TTL.CONVERSATION] seconds have passed since the
    write, and the empty list from then on. *)
Theorem storeConversation_roundtrip (ns : KVNamespace) (userId : string)
    (previous : list Json) (m : Json) (d : Z) :
  Forall (fun f => f = None) (take 3 (faults ns)) ->
  live (keyOf MEMORY_TYPES_CONVERSATION userId) ns = None /\ previous = []
  \/ live (keyOf MEMORY_TYPES_CONVERSATION userId) ns
     = Some (Document (JArray previous)) ->
  0 <= d ->
  fst (storeConversation userId m (constructor (Some ns))) = Returned tt
  /\ (d < TTL_CONVERSATION ->
      fst (getConversations userId
             (later d (snd (storeConversation userId m (constructor (Some ns))))))
      = Returned (JArray (previous ++ [m]))
      /\ last (previous ++ [m]) = Some m)
  /\ (TTL_CONVERSATION <= d ->
      fst (getConversations userId
             (later d (snd (storeConversation userId m (constructor (Some ns))))))
      = Returned (JArray [])).
Proof.
  intros Hok Hprev Hd.
  assert (Hfaults : hd None (faults ns) = None
                    /\ hd None (tail (faults ns)) = None
                    /\ hd None (tail (tail (faults ns))) = None).
  { destruct (faults ns) as [|f1 [|f2 [|f3 rest]]]; simpl in *;
      repeat match goal with
             | H : Forall _ (_ :: _) |- _ => apply Forall_cons in H as [-> H]
             end; repeat split; reflexivity. }
  destruct Hfaults as (Hf1 & Hf2 & Hf3).
  unfold storeConversation, getConversations.
  rewrite (storeItem_appends MEMORY_TYPES_CONVERSATION TTL_CONVERSATION userId
             m (constructor (Some ns)) ns previous eq_refl eq_refl Hf1 Hf2 Hprev).
  split; [reflexivity|].
  cbn [snd later kv isAvailable fmap option_fmap option_map].
  split; [intros Hlive; split; [|apply last_snoc] | intros Hdead].
  - erewrite getList_available; [|reflexivity..].
    cbn [fst elapse faults]. rewrite Hf3.
    unfold live, elapse. cbn [entries time]. rewrite lookup_insert_eq.
    destruct (Z.ltb_spec (time ns + d) (time ns + TTL_CONVERSATION));
      [reflexivity | lia].
  - erewrite getList_available; [|reflexivity..].
    cbn [fst elapse faults]. rewrite Hf3.
    unfold live, elapse. cbn [entries time]. rewrite lookup_insert_eq.
    destruct (Z.ltb_spec (time ns + d) (time ns + TTL_CONVERSATION));
      [lia | reflexivity].
Qed.

Lemma storeConversation_roundtrip_witness :
  fst (storeConversation "42" (Sample.turn "assistant" "hello")
         (constructor (Some Sample.kvStore))) = Returned tt
  /\ (3600 < TTL_CONVERSATION ->
      fst (getConversations "42"
             (later 3600 (snd (storeConversation "42"
                                 (Sample.turn "assistant" "hello")
                                 (constructor (Some Sample.kvStore))))))
      = Returned (JArray ([Sample.turn "user" "hi"]
                          ++ [Sample.turn "assistant" "hello"]))
      /\ last ([Sample.turn "user" "hi"] ++ [Sample.turn "assistant" "hello"])
         = Some (Sample.turn "assistant" "hello"))
  /\ (TTL_CONVERSATION <= 3600 ->
      fst (getConversations "42"
             (later 3600 (snd (storeConversation "42"
                                 (Sample.turn "assistant" "hello")
                                 (constructor (Some Sample.kvStore))))))
      = Returned (JArray [])).
Proof.
  apply (storeConversation_roundtrip Sample.kvStore "42"
           [Sample.turn "user" "hi"] (Sample.turn "assistant" "hello") 3600).
  - constructor.
  - right. reflexivity.
  - lia.
Defined.

(** ** Action dispatch *)

Section Dispatching.

Import CoreAgent.

Context {Env : Type}.
Context (recallContext : JsValue -> Env -> jsstring * Env).
Context (generateResponse : JsValue -> jsstring -> M Env jsstring).
Context (publishCast : jsstring -> JsValue -> option JsValue -> M Env unit).
Context (remember : JsValue -> JsValue -> jsstring -> Env -> Env).

Lemma onEnv_executed {A : Type} (c : M Env A) (st : State Env) :
  executed (snd (onEnv c st)) = executed st.
Proof. unfold onEnv. destruct (c (env st)). reflexivity. Qed.

(** The loop executes the matching actions in the order of the registry,
    up to and including the first that stops it. *)
Lemma dispatch_log (userMessage parentHash : JsValue)
    (author : option CastAuthor) (actions : list (Action Env)) :
  forall (context : jsstring) (st : State Env),
  exists log,
    executed (snd (dispatch publishCast actions userMessage parentHash
                     author context st))
    = executed st ++ log
    /\ log.*1 `prefix_of` filter (fun a => matches userMessage a = true) actions
    /\ (forall i entry, log !! i = Some entry -> stops entry ->
          S i = length log)
    /\ ((forall entry, entry ∈ log -> ~ stops entry) ->
        log.*1 = filter (fun a => matches userMessage a = true) actions).
Proof.
  induction actions as [|action rest IH]; intros context st.
  - exists []. simpl. rewrite app_nil_r.
    repeat split; try reflexivity. intros i entry H. discriminate.
  - cbn [dispatch]. destruct (matches userMessage action) eqn:Hmatch.
    + rewrite filter_cons_True by exact Hmatch.
      unfold bind at 1. unfold run.
      destruct (execute action userMessage author (env st)) as [[result|e] env1].
      * destruct (ActionResult.shouldSendMessage result) eqn:Hsend.
        -- exists [(action, Returned result)].
           split.
           { unfold bind.
             pose proof (onEnv_executed
               (publishCast (ActionResult.text result) parentHash
                  (ActionResult.embeds result))
               {| env := env1;
                  executed := executed st ++ [(action, Returned result)] |})
               as Hpub.
             destruct (onEnv _ _) as [[[]|e] st1]; exact Hpub. }
           split; [apply prefix_cons, prefix_nil|].
           split.
           { intros [|i] entry H _; [reflexivity | discriminate]. }
           intros Hnone. exfalso. apply (Hnone (action, Returned result)).
           ++ apply list_elem_of_singleton. reflexivity.
           ++ exact Hsend.
        -- match goal with
           | |- context [match ActionResult.context result with _ => _ end] =>
               assert (Hstep : exists context',
                 match ActionResult.context result with
                 | Some (c :: cs) =>
                     dispatch publishCast rest userMessage parentHash author
                       (context ++ lit (String "010" "") ++ c :: cs)
                 | _ => dispatch publishCast rest userMessage parentHash
                          author context
                 end
                 = dispatch publishCast rest userMessage parentHash author
                     context')
           end.
           { destruct (ActionResult.context result) as [[|c cs]|]; eauto. }
           destruct Hstep as [context' ->].
           destruct (IH context'
                       {| env := env1;
                          executed := executed st ++ [(action, Returned result)] |})
             as (log & Hlog & Hprefix & Hstop & Hall).
           exists ((action, Returned result) :: log).
           split; [rewrite Hlog; cbn [executed]; rewrite <- app_assoc; reflexivity|].
           split; [rewrite fmap_cons; apply prefix_cons; exact Hprefix|].
           split.
           { intros [|i] entry H Hs.
             - injection H as <-. unfold stops in Hs. simpl in Hs. congruence.
             - simpl. f_equal. exact (Hstop i entry H Hs). }
           intros Hnone. rewrite fmap_cons. cbn [fst]. f_equal.
           apply Hall. intros entry Hin. apply Hnone. right. exact Hin.
      * exists [(action, Threw e)].
        split; [reflexivity|].
        split; [apply prefix_cons, prefix_nil|].
        split.
        { intros [|i] entry H _; [reflexivity | discriminate]. }
        intros Hnone. exfalso. apply (Hnone (action, Threw e)).
        -- apply list_elem_of_singleton. reflexivity.
        -- exact I.
    + rewrite filter_cons_False by (rewrite Hmatch; discriminate).
      apply IH.
Qed.

End Dispatching.

Section DispatchClaim.

Import CoreAgent.

Context {Env : Type}.
Context (recallContext : JsValue -> Env -> jsstring * Env).
Context (generateResponse : JsValue -> jsstring -> M Env jsstring).
Context (publishCast : jsstring -> JsValue -> option JsValue -> M Env unit).
Context (remember : JsValue -> JsValue -> jsstring -> Env -> Env).

Lemma quiet_onEnv {A : Type} (c : M Env A) : quiet (onEnv c).
Proof. intros st. apply onEnv_executed. Qed.

Lemma quiet_ret {A : Type} (a : A) : quiet (ret a : M (State Env) A).
Proof. intros st. reflexivity. Qed.

Lemma quiet_bind {A B : Type} (c : M (State Env) A) (k : A -> M (State Env) B) :
  quiet c -> (forall a, quiet (k a)) -> quiet (bind c k).
Proof.
  intros Hc Hk st. unfold bind. specialize (Hc st).
  destruct (c st) as [[a|e] st1]; simpl in *; [|exact Hc].
  rewrite Hk. exact Hc.
Qed.

Lemma onEnv_returns {A : Type} (f : Env -> A * Env) (st : State Env) :
  onEnv (fun e => let (a, e') := f e in (Returned a, e')) st
  = (Returned (fst (f (env st))),
     {| env := snd (f (env st)); executed := executed st |}).
Proof. unfold onEnv. destruct (f (env st)). reflexivity. Qed.

(** C2, amended: [processMessage] executes the actions that match the text
    in registration order, up to and including the first whose result has
    [shouldSendMessage] set (or whose [execute] throws); no action is
    executed after that one, so a first matching action that replies is
    the only one executed.  A matching action whose result does not have
    [shouldSendMessage] set does not end the dispatch: when no executed
    action replies or throws, every matching action is executed. *)
Theorem processMessage_dispatch_order (actions : list (Action Env))
    (message : Cast) (st : State Env) :
  exists log,
    executed (snd (processMessage recallContext generateResponse publishCast
                     remember actions message st))
    = executed st ++ log
    /\ log.*1 `prefix_of` filter (fun a => matches (text message) a = true) actions
    /\ (forall i entry, log !! i = Some entry -> stops entry ->
          S i = length log)
    /\ (forall a result rest,
          log = (a, Returned result) :: rest ->
          ActionResult.shouldSendMessage result = true ->
          rest = [])
    /\ ((exists a, author message = Some a /\ truthy (fid a) = true) ->
        (forall entry, entry ∈ log -> ~ stops entry) ->
        log.*1 = filter (fun a => matches (text message) a = true) actions).
Proof.
  assert (Hfirst : forall log : list (Action Env * Res ActionResult.t),
            (forall i entry, log !! i = Some entry -> stops entry ->
               S i = length log) ->
            forall a result rest,
              log = (a, Returned result) :: rest ->
              ActionResult.shouldSendMessage result = true -> rest = []).
  { intros log Hstop a result rest -> Hsend.
    specialize (Hstop 0%nat (a, Returned result) eq_refl Hsend).
    destruct rest; [reflexivity | discriminate]. }
  unfold processMessage.
  destruct (truthy match author message with
                   | Some a => fid a
                   | None => JsUndefined
                   end) eqn:Hfid; cbn [negb].
  - unfold bind at 1. rewrite onEnv_returns.
    match goal with
    | |- context [bind (dispatch _ _ _ _ _ ?context) _ ?st1] =>
        destruct (dispatch_log publishCast (text message) (hash message)
                    (author message) actions context st1)
          as (log & Hlog & Hprefix & Hstop & Hall)
    end.
    cbn [executed] in Hlog.
    exists log.
    split; [|split; [exact Hprefix | split; [exact Hstop | split;
              [exact (Hfirst log Hstop) | intros _; exact Hall]]]].
    rewrite <- Hlog. unfold bind at 1.
    destruct (dispatch _ _ _ _ _ _ _) as [[d|e] st2]; [|reflexivity].
    cbn [snd]. destruct d as [reply|context'].
    + reflexivity.
    + apply quiet_bind; [apply quiet_onEnv|]. intros response.
      apply quiet_bind; [apply quiet_onEnv|]. intros _.
      apply quiet_bind; [apply quiet_onEnv|]. intros _.
      apply quiet_ret.
  - exists []. rewrite app_nil_r. split; [reflexivity|].
    split; [apply prefix_nil|].
    split; [intros i entry H; discriminate|].
    split; [intros a result rest H; discriminate|].
    intros (a & Ha & Hfa) _. rewrite Ha, Hfa in Hfid. discriminate.
Qed.

End DispatchClaim.

(** C2, as stated, fails: both actions match the text, the first in the
    registry returns context without [shouldSendMessage], and the second
    is executed as well. *)
Lemma processMessage_runs_later_match :
  let outcome :=
    CoreAgent.processMessage Sample.noContext Sample.sayOk Sample.publish
      Sample.forget [Sample.lookup; Sample.greet] Sample.cast Sample.fresh in
  CoreAgent.matches (CoreAgent.text Sample.cast) Sample.lookup = true
  /\ CoreAgent.matches (CoreAgent.text Sample.cast) Sample.greet = true
  /\ CoreAgent.name <$> (CoreAgent.executed (snd outcome)).*1
     = ["lookup"; "greet"]
  /\ fst outcome = Returned (lit "gm").
Proof. repeat split. Qed.

Lemma processMessage_dispatch_order_witness :
  exists log,
    CoreAgent.executed
      (snd (CoreAgent.processMessage Sample.noContext Sample.sayOk
              Sample.publish Sample.forget [Sample.greet; Sample.lookup]
              Sample.cast Sample.fresh))
    = CoreAgent.executed Sample.fresh ++ log
    /\ CoreAgent.name <$> log.*1 = ["greet"].
Proof.
  destruct (processMessage_dispatch_order Sample.noContext Sample.sayOk
              Sample.publish Sample.forget [Sample.greet; Sample.lookup]
              Sample.cast Sample.fresh)
    as (log & Hlog & _ & _ & Hfirst & _).
  exists log. split; [exact Hlog|].
  destruct log as [|[a [result|e]] rest]; try discriminate.
  injection Hlog as <- <- Hrest.
  rewrite (Hfirst _ _ rest eq_refl eq_refl). reflexivity.
Defined.

(** * Further properties *)

(** ** Rate limiter: what a call can change *)

Section LimiterFrame.

Lemma checkRateLimit_countsInRange (now : Z) (key : string)
    (limits : gmap string RateLimitWindow) :
  countsInRange limits ->
  countsInRange (snd (checkRateLimit now key limits)).
Proof.
  intros Hin k w. unfold checkRateLimit.
  destruct (limits !! key) as [limit|] eqn:Hkey.
  - destruct (now >? resetTime limit).
    + cbn [snd]. destruct (decide (key = k)) as [->|Hne].
      * rewrite lookup_insert_eq. intros [= <-]. simpl. lia.
      * rewrite lookup_insert_ne by exact Hne. apply Hin.
    + destruct (Z.geb_spec (count limit) (maxRequests RATE_LIMIT_CONFIG));
        cbn [snd]; [apply Hin|].
      destruct (decide (key = k)) as [->|Hne].
      * rewrite lookup_insert_eq. intros [= <-]. cbn [count].
        pose proof (Hin k limit Hkey). lia.
      * rewrite lookup_insert_ne by exact Hne. apply Hin.
  - cbn [snd]. destruct (decide (key = k)) as [->|Hne].
    + rewrite lookup_insert_eq. intros [= <-]. simpl. lia.
    + rewrite lookup_insert_ne by exact Hne. apply Hin.
Qed.

(** X1: whatever keys are checked, at whatever times and in whatever
    order, starting from the empty map of a new agent, every window in the
    map has a count between 1 and [maxRequests]. *)
Theorem checkRateLimit_count_bounds (calls : list (string * Z)) :
  countsInRange (checkRateLimitCalls calls ∅).
Proof.
  assert (Hgen : forall limits, countsInRange limits ->
                   countsInRange (checkRateLimitCalls calls limits)).
  { induction calls as [|[key now] later IH]; intros limits Hin; [exact Hin|].
    cbn [checkRateLimitCalls]. apply IH, checkRateLimit_countsInRange, Hin. }
  apply Hgen. intros key w H. rewrite lookup_empty in H. discriminate.
Qed.

(** X2: a call of [checkRateLimit(key)] leaves the windows of all other
    keys as they were; a call that is refused changes nothing at all; and a
    call admitted into a running window counts one more request without
    moving the window's [resetTime]. *)
Theorem checkRateLimit_frame (now : Z) (key : string)
    (limits : gmap string RateLimitWindow) :
  (forall other, other <> key ->
     snd (checkRateLimit now key limits) !! other = limits !! other)
  /\ (fst (checkRateLimit now key limits) = false ->
      snd (checkRateLimit now key limits) = limits)
  /\ (forall w, limits !! key = Some w -> now <= resetTime w ->
      fst (checkRateLimit now key limits) = true ->
      snd (checkRateLimit now key limits) !! key
      = Some {| count := count w + 1; resetTime := resetTime w |}).
Proof.
  unfold checkRateLimit. split; [|split].
  - intros other Hne.
    destruct (limits !! key) as [limit|];
      [destruct (now >? resetTime limit);
       [|destruct (count limit >=? maxRequests RATE_LIMIT_CONFIG)]|];
      cbn [snd]; try reflexivity; apply lookup_insert_ne; congruence.
  - destruct (limits !! key) as [limit|];
      [destruct (now >? resetTime limit);
       [|destruct (count limit >=? maxRequests RATE_LIMIT_CONFIG)]|];
      cbn [fst snd]; intros H; try discriminate; reflexivity.
  - intros w Hw Hnow. rewrite Hw.
    destruct (Z.gtb_spec now (resetTime w)); [lia|].
    destruct (count w >=? maxRequests RATE_LIMIT_CONFIG); cbn [fst snd];
      [discriminate|].
    intros _. apply lookup_insert_eq.
Qed.

End LimiterFrame.

Lemma checkRateLimit_frame_witness :
  snd (checkRateLimit 500 "llm-api"
         {[ "llm-api" := {| count := 50; resetTime := 60000 |} ]})
  = {[ "llm-api" := {| count := 50; resetTime := 60000 |} ]}.
Proof.
  apply (proj1 (proj2 (checkRateLimit_frame 500 "llm-api"
           {[ "llm-api" := {| count := 50; resetTime := 60000 |} ]}))).
  reflexivity.
Defined.

(** ** Retry executor: exhaustion and bounds *)

Section RetryBounds.

Context {T : Type} (operation : nat -> Res T) (key : string).

(** [n] admitted attempts that all fail with errors [shouldRetry] accepts:
    each is followed by its backoff sleep, and after the last of them the
    loop is left with that error as [lastError]. *)
Lemma withRetryFrom_exhausts (err : nat -> Error) (n : nat) :
  forall (attempt : nat) (lastError : option Error) (w : World),
    admits n key w = true ->
    (forall k, (k < n)%nat ->
       operation (invocations w + k)%nat = Threw (err k)
       /\ shouldRetry (err k) = true) ->
    fst (withRetryFrom operation key n attempt lastError w)
    = Threw (default (newError "Operation failed after all retries")
               (match n with
                | O => lastError
                | S n' => Some (err n')
                end))
    /\ invocations (snd (withRetryFrom operation key n attempt lastError w))
       = (invocations w + n)%nat
    /\ journal (snd (withRetryFrom operation key n attempt lastError w))
       = journal w
         ++ map (fun k => BackedOff (attempt + k) (err k)
                            (waitTime (attempt + k)))
                (seq 0 n).
Proof.
  induction n as [|n IH] in err |- *; intros attempt lastError w Hadm Hfail.
  - simpl. rewrite app_nil_r, Nat.add_0_r. repeat split.
  - cbn [withRetryFrom admits] in *.
    destruct (checkRateLimitNow_frame key w) as [Hinv Hj].
    destruct (checkRateLimitNow key w) as [admitted w1]. simpl in Hinv, Hj.
    apply andb_true_iff in Hadm as [-> Hadm]. cbn [negb].
    destruct (Hfail 0%nat) as [He Hretry]; [lia|].
    rewrite Nat.add_0_r in He.
    unfold invoke. rewrite Hinv, He, Hretry. cbn [negb].
    match goal with
    | |- context [withRetryFrom _ _ _ _ ?le ?w'] =>
        destruct (IH (fun k => err (S k)) (S attempt) le w')
          as (Hres & Hcount & Hjournal)
    end.
    + erewrite admits_frame; [exact Hadm | reflexivity ..].
    + intros k Hk. simpl. destruct (Hfail (S k)) as [He' Hretry']; [lia|].
      split; [|exact Hretry']. rewrite <- He'. f_equal. lia.
    + rewrite Hres, Hcount, Hjournal. cbn [invocations journal record].
      rewrite Hj. split; [destruct n; reflexivity|]. split; [lia|].
      rewrite <- app_assoc. cbn [seq map app]. rewrite Nat.add_0_r.
      do 2 f_equal. rewrite <- seq_shift, map_map.
      apply map_ext. intros k. rewrite Nat.add_succ_r. reflexivity.
Qed.

(** X3: when the limiter admits every attempt and every invocation fails
    with an error [shouldRetry] accepts, the operation is invoked exactly
    [maxRetries] times, [withRetry] throws the error of the last
    invocation, and it has slept 1000, 2000 and 4000 ms, the last sleep
    coming after the final failure. *)
Theorem withRetry_exhausts (err : nat -> Error) (w : World) :
  admits (maxRetries RETRY_CONFIG) key w = true ->
  (forall k, (k < maxRetries RETRY_CONFIG)%nat ->
     operation (invocations w + k)%nat = Threw (err k)
     /\ shouldRetry (err k) = true) ->
  fst (withRetry operation key w) = Threw (err 2%nat)
  /\ invocations (snd (withRetry operation key w))
     = (invocations w + maxRetries RETRY_CONFIG)%nat
  /\ journal (snd (withRetry operation key w))
     = journal w ++ [BackedOff 0 (err 0%nat) 1000;
                     BackedOff 1 (err 1%nat) 2000;
                     BackedOff 2 (err 2%nat) 4000].
Proof.
  intros Hadm Hfail. unfold withRetry.
  destruct (withRetryFrom_exhausts err (maxRetries RETRY_CONFIG) 0%nat None w
              Hadm Hfail) as (Hres & Hcount & Hjournal).
  rewrite Hres, Hcount, Hjournal. repeat split.
Qed.

Lemma sleepBudget_nonneg (remaining attempt : nat) :
  0 <= sleepBudget remaining attempt.
Proof.
  revert attempt. induction remaining as [|remaining IH]; intros attempt;
    cbn [sleepBudget]; [lia|].
  specialize (IH (S attempt)).
  assert (0 <= waitTime attempt); [|lia].
  unfold waitTime. apply Z.min_glb; simpl; [lia|].
  apply Z.mul_nonneg_nonneg; [lia|]. apply Z.pow_nonneg. lia.
Qed.

Lemma withRetryFrom_sleeps (remaining : nat) :
  forall (attempt : nat) (lastError : option Error) (w : World),
  exists entries,
    journal (snd (withRetryFrom operation key remaining attempt lastError w))
    = journal w ++ entries
    /\ slept entries <= sleepBudget remaining attempt
    /\ (forall i entry, entries !! i = Some entry ->
          waitOf entry = 0 \/ waitOf entry = waitTime (attempt + i))
    /\ ticks (snd (withRetryFrom operation key remaining attempt lastError w))
       = (ticks w + length entries)%nat
    /\ (length entries <= remaining)%nat.
Proof.
  induction remaining as [|remaining IH]; intros attempt lastError w.
  - exists []. simpl. rewrite app_nil_r.
    repeat split; try lia. intros i entry H. discriminate.
  - cbn [withRetryFrom sleepBudget].
    pose proof (sleepBudget_nonneg remaining (S attempt)) as Hrest.
    assert (Hwait : 0 <= waitTime attempt).
    { pose proof (sleepBudget_nonneg 1 attempt) as H. cbn [sleepBudget] in H. lia. }
    unfold checkRateLimitNow.
    destruct (checkRateLimit _ key (rateLimits w)) as [admitted limits].
    destruct admitted; cbn [negb].
    + unfold invoke. cbn [invocations].
      destruct (operation (invocations w)) as [v|error].
      * exists [Succeeded attempt]. cbn.
        repeat split; try lia.
        intros [|i] entry H; [injection H as <-; left; reflexivity | discriminate].
      * destruct (shouldRetry error); cbn [negb].
        -- match goal with
           | |- context [withRetryFrom _ _ _ _ ?le ?w'] =>
               destruct (IH (S attempt) le w')
                 as (entries & Hjournal & Hslept & Hone & Hticks & Hlen)
           end.
           exists (BackedOff attempt error (waitTime attempt) :: entries).
           rewrite Hjournal, Hticks.
           cbn [journal ticks record length]. rewrite <- app_assoc.
           split; [reflexivity|].
           split; [unfold slept in *; cbn [fold_right waitOf]; lia|].
           split; [|split; lia].
           intros [|i] entry H.
           ++ injection H as <-. right. rewrite Nat.add_0_r. reflexivity.
           ++ rewrite Nat.add_succ_r. exact (Hone i entry H).
        -- exists [GaveUp attempt error]. cbn.
           repeat split; try lia.
           intros [|i] entry H; [injection H as <-; left; reflexivity | discriminate].
    + match goal with
      | |- context [withRetryFrom _ _ _ _ ?le ?w'] =>
          destruct (IH (S attempt) le w')
            as (entries & Hjournal & Hslept & Hone & Hticks & Hlen)
      end.
      exists (Rejected attempt (waitTime attempt) :: entries).
      rewrite Hjournal, Hticks.
      cbn [journal ticks record length]. rewrite <- app_assoc.
      split; [reflexivity|].
      split; [unfold slept in *; cbn [fold_right waitOf]; lia|].
      split; [|split; lia].
      intros [|i] entry H.
      * injection H as <-. right. rewrite Nat.add_0_r. reflexivity.
      * rewrite Nat.add_succ_r. exact (Hone i entry H).
Qed.

(** X4: whatever the operation and the limiter do, a call of [withRetry]
    asks to sleep for at most 1000 + 2000 + 4000 = 7000 ms in all, no single
    sleep reaches [maxDelay], and it checks the rate limit (reads the
    clock) once per iteration, at most [maxRetries] times. *)
Theorem withRetry_bounded (w : World) :
  exists entries,
    journal (snd (withRetry operation key w)) = journal w ++ entries
    /\ slept entries <= 7000
    /\ Forall (fun entry => 0 <= waitOf entry < maxDelay RETRY_CONFIG) entries
    /\ ticks (snd (withRetry operation key w)) = (ticks w + length entries)%nat
    /\ (length entries <= maxRetries RETRY_CONFIG)%nat.
Proof.
  unfold withRetry.
  destruct (withRetryFrom_sleeps (maxRetries RETRY_CONFIG) 0 None w)
    as (entries & Hjournal & Hslept & Hone & Hticks & Hlen).
  exists entries. split; [exact Hjournal|].
  split; [exact Hslept|]. split; [|split; assumption].
  apply Forall_lookup. intros i entry Hi.
  assert (Hi3 : (i < 3)%nat).
  { apply lookup_lt_Some in Hi. simpl in Hlen. lia. }
  destruct (Hone i entry Hi) as [-> | ->]; [simpl; lia|].
  destruct i as [|[|[|i]]];
    [vm_compute; split; [discriminate | reflexivity] ..|lia].
Qed.

End RetryBounds.

Lemma withRetry_exhausts_witness :
  let operation : nat -> Res unit := fun _ => Threw Sample.networkError in
  fst (withRetry operation "llm-api" Sample.idle) = Threw Sample.networkError
  /\ invocations (snd (withRetry operation "llm-api" Sample.idle))
     = (invocations Sample.idle + maxRetries RETRY_CONFIG)%nat
  /\ journal (snd (withRetry operation "llm-api" Sample.idle))
     = journal Sample.idle
       ++ [BackedOff 0 Sample.networkError 1000;
           BackedOff 1 Sample.networkError 2000;
           BackedOff 2 Sample.networkError 4000].
Proof.
  intros operation.
  apply (withRetry_exhausts operation "llm-api" (fun _ => Sample.networkError)
           Sample.idle).
  - reflexivity.
  - intros k _. split; reflexivity.
Defined.

(** ** Which errors are retried *)

Section Retryable.

Lemma startsWith_spec (p s : string) :
  startsWith p s = true <-> exists post, s = String.append p post.
Proof.
  revert s. induction p as [|a p IH]; intros s; simpl.
  - split; [eauto | reflexivity].
  - destruct s as [|b s]; simpl.
    + split; [discriminate | intros [post H]; discriminate].
    + destruct (Ascii.eqb_spec a b) as [->|Hne].
      * rewrite IH. split; intros [post H]; exists post.
        -- subst s. reflexivity.
        -- change (String b s = String b (String.append p post)) in H.
           congruence.
      * split; [discriminate|]. intros [post H].
        change (String b s = String a (String.append p post)) in H.
        congruence.
Qed.

Lemma includes_spec (s p : string) :
  includes s p = true
  <-> exists pre post, s = String.append pre (String.append p post).
Proof.
  induction s as [|c s IH]; simpl.
  - rewrite orb_false_r, startsWith_spec. split.
    + intros [post H]. exists EmptyString, post. exact H.
    + intros (pre & post & H). destruct pre as [|a pre]; [eauto|discriminate].
  - rewrite orb_true_iff, startsWith_spec, IH. split.
    + intros [[post H] | (pre & post & H)].
      * exists EmptyString, post. exact H.
      * exists (String c pre), post. subst s. reflexivity.
    + intros (pre & post & H). destruct pre as [|a pre].
      * left. eauto.
      * right. exists pre, post.
        change (String c s
                = String a (String.append pre (String.append p post))) in H.
        congruence.
Qed.

(** X5: [shouldRetry] accepts an error exactly when its name is
    [NetworkError], or its message contains the text [rate limit] (in
    lower case, anywhere), or it carries a response whose status is 429,
    502 or 503. *)
Theorem shouldRetry_iff (e : Error) :
  shouldRetry e = true
  <-> error_name e = "NetworkError"
      \/ (exists pre post,
            error_message e
            = String.append pre (String.append "rate limit" post))
      \/ (exists r, error_response e = Some r
                    /\ (status r = 429 \/ status r = 502 \/ status r = 503)).
Proof.
  unfold shouldRetry. rewrite !orb_true_iff, String.eqb_eq, includes_spec.
  assert (Hstatus :
    match error_response e with
    | Some response => existsb (Z.eqb (status response)) [429; 503; 502]
    | None => false
    end = true
    <-> exists r, error_response e = Some r
                  /\ (status r = 429 \/ status r = 502 \/ status r = 503)).
  { destruct (error_response e) as [r|].
    - simpl. rewrite !orb_true_iff, !Z.eqb_eq. split.
      + intros H. exists r. split; [reflexivity|]. intuition discriminate.
      + intros (r' & [= <-] & H). tauto.
    - split; [discriminate | intros (r & H & _); discriminate]. }
  rewrite Hstatus. tauto.
Qed.

End Retryable.

(** ** Validation: the errors, and texts left alone *)

Section ValidationMore.

(** X6: [validateMessage] throws nothing but its three validation errors,
    and which one is decided by the first check that fails, in the order
    platform, text, author: a missing platform is reported even when text
    and author are missing too. *)
Theorem validateMessage_errors (m : Message.t) (e : Error) :
  validateMessage m = Threw e ->
  (truthy (Message.platform m) = false
   /\ e = newError "Message must have a platform")
  \/ (truthy (Message.platform m) = true
      /\ (truthy (Message.text m) = false
          \/ isString (Message.text m) = false)
      /\ e = newError "Message must have valid text content")
  \/ (truthy (Message.platform m) = true
      /\ (exists s, Message.text m = JsString s /\ s <> [])
      /\ (Message.author m = None
          \/ exists a, Message.author m = Some a
                       /\ truthy (Author.username a) = false)
      /\ e = newError "Message must have an author with a username").
Proof.
  unfold validateMessage.
  destruct (truthy (Message.platform m)) eqn:Hp; cbn [negb];
    [|intros [= <-]; left; split; reflexivity].
  destruct (truthy (Message.text m)) eqn:Ht; cbn [negb orb];
    [|intros [= <-]; right; left; repeat split; left; reflexivity].
  destruct (isString (Message.text m)) eqn:Hs; cbn [negb];
    [|intros [= <-]; right; left; repeat split; right; reflexivity].
  destruct (Message.text m) as [| |b|n|s|r]; try discriminate.
  assert (Hne : s <> []) by (intros ->; discriminate).
  destruct (Message.author m) as [a|] eqn:Ha.
  - destruct (truthy (Author.username a)) eqn:Hu; cbn [negb]; [discriminate|].
    intros [= <-]. right. right. repeat split; eauto.
  - intros [= <-]. right. right. repeat split; eauto.
Qed.

Lemma validateMessage_errors_witness :
  (truthy (Message.platform (Sample.message JsUndefined)) = false
   /\ newError "Message must have valid text content"
      = newError "Message must have a platform")
  \/ (truthy (Message.platform (Sample.message JsUndefined)) = true
      /\ (truthy (Message.text (Sample.message JsUndefined)) = false
          \/ isString (Message.text (Sample.message JsUndefined)) = false)
      /\ newError "Message must have valid text content"
         = newError "Message must have valid text content")
  \/ (truthy (Message.platform (Sample.message JsUndefined)) = true
      /\ (exists s, Message.text (Sample.message JsUndefined) = JsString s
                    /\ s <> [])
      /\ (Message.author (Sample.message JsUndefined) = None
          \/ exists a, Message.author (Sample.message JsUndefined) = Some a
                       /\ truthy (Author.username a) = false)
      /\ newError "Message must have valid text content"
         = newError "Message must have an author with a username").
Proof.
  apply (validateMessage_errors (Sample.message JsUndefined)). reflexivity.
Defined.

Lemma trim_clean (s : jsstring) :
  (forall c t, s = c :: t -> isWhiteSpace c = false) ->
  (forall t c, s = t ++ [c] -> isWhiteSpace c = false) ->
  trim s = s.
Proof.
  intros Hhead Hlast.
  assert (Hstart : trimStart s = s).
  { destruct s as [|c t]; [reflexivity|]. simpl.
    rewrite (Hhead c t eq_refl). reflexivity. }
  unfold trim, trimEnd. rewrite Hstart.
  destruct (rev s) as [|c t] eqn:Hrev.
  - rewrite <- (rev_involutive s), Hrev. reflexivity.
  - simpl. rewrite (Hlast (rev t) c).
    + rewrite <- Hrev. apply rev_involutive.
    + rewrite <- (rev_involutive s), Hrev. reflexivity.
Qed.

Lemma filter_harmless (s : jsstring) :
  Forall (fun c => harmful c = false) s ->
  filter (fun c => harmful c = false) s = s.
Proof.
  induction 1 as [|c s Hc _ IH]; [reflexivity|].
  rewrite filter_cons_True by exact Hc. rewrite IH. reflexivity.
Qed.

(** X7: a message whose text is already clean (non-empty, at most 2000
    code units, none of the three removed characters, no white space at
    either end) passes [validateMessage] unchanged, so validating it again
    changes nothing either. *)
Theorem validateMessage_clean (m : Message.t) (s : jsstring) (a : Author.t) :
  truthy (Message.platform m) = true ->
  Message.text m = JsString s -> clean s ->
  Message.author m = Some a -> truthy (Author.username a) = true ->
  sanitize s = s /\ validateMessage m = Returned m.
Proof.
  intros Hp Ht (Hne & Hlen & Hharm & Hhead & Hlast) Ha Hu.
  assert (Hsan : sanitize s = s).
  { unfold sanitize, slice0. rewrite (trim_clean s Hhead Hlast).
    rewrite (filter_harmless s Hharm). apply take_ge. exact Hlen. }
  split; [exact Hsan|].
  rewrite (validateMessage_passes m s a Hp Ht Hne Ha Hu), Hsan.
  f_equal. destruct m. simpl in *. subst. reflexivity.
Qed.

End ValidationMore.

Lemma validateMessage_clean_witness :
  sanitize (lit "hello there") = lit "hello there"
  /\ validateMessage (Sample.message (JsString (lit "hello there")))
     = Returned (Sample.message (JsString (lit "hello there"))).
Proof.
  apply (validateMessage_clean
           (Sample.message (JsString (lit "hello there")))
           (lit "hello there") Sample.author); try reflexivity.
  split; [discriminate|]. split; [vm_compute; lia|].
  split; [vm_compute; repeat constructor|].
  split.
  - intros c t [= <- _]. reflexivity.
  - intros t c H. apply (f_equal (@rev N)) in H.
    rewrite rev_app_distr in H. vm_compute in H. injection H as <- _.
    reflexivity.
Defined.

(** ** The queue: a lone caller, and a caller overtaken *)

Section QueueMore.

Context {Env : Type} (pmi : Message.t -> M Env ActionResult.t).

(** X8: a call of [processMessage] on a processor at rest with an empty
    queue, during which nobody else calls, hands exactly its own message to
    [processMessageInternal] and ends as that call ends; the queue is empty
    afterwards even when it threw, so a message that fails is not retried. *)
Theorem processMessage_alone (m m' : Message.t) (p : Processor Env) :
  validateMessage m = Returned m' ->
  processingQueue p = false ->
  messageQueue p = [] ->
  hd [] (incoming p) = [] ->
  processMessage pmi m p
  = Some (fst (pmi m' (env p)),
          {| messageQueue := [];
             processingQueue := false;
             env := snd (pmi m' (env p));
             incoming := tail (incoming p);
             drained := drained p ++ [(m', fst (pmi m' (env p)))] |}).
Proof.
  intros Hvalid Hflag Hq Hnone.
  unfold processMessage, enqueue. rewrite Hvalid.
  cbn [processingQueue set_messageQueue]. rewrite Hflag, Hq. cbn [negb app].
  unfold processMessageQueue, drainBound.
  cbn [messageQueue incoming set_processingQueue length Nat.add drain].
  unfold awaitInternal.
  cbn [env incoming set_messageQueue set_processingQueue messageQueue
       processingQueue drained length Nat.add].
  rewrite Hnone. cbn [foldl].
  destruct (pmi m' (env p)) as [[result|e] env1];
    cbn [fst snd drain messageQueue set_processingQueue env incoming drained
         processingQueue];
    reflexivity.
Qed.


End QueueMore.

Lemma processMessage_alone_witness :
  processMessage Sample.echo (Sample.message (JsString (lit " hello ")))
    Sample.alone
  = Some (fst (Sample.echo (Sample.message (JsString (lit "hello"))) 0%nat),
          {| messageQueue := [];
             processingQueue := false;
             env := snd (Sample.echo (Sample.message (JsString (lit "hello")))
                           0%nat);
             incoming := [];
             drained := [(Sample.message (JsString (lit "hello")),
                          fst (Sample.echo
                                 (Sample.message (JsString (lit "hello")))
                                 0%nat))] |}).
Proof.
  apply (processMessage_alone Sample.echo
           (Sample.message (JsString (lit " hello ")))
           (Sample.message (JsString (lit "hello"))) Sample.alone);
    reflexivity.
Defined.


(** ** Memory store: reading everything, isolation, and lost history *)

Section MemoryMore.

(** X10: [getAllMemories] never throws and writes nothing: it returns what
    [getConversations] and then [getLongTerm] return, each replaced by the
    empty list when it is falsy (a stored [null], [0], [false] or empty
    string). *)
Theorem getAllMemories_reads (userId : string) (mem : Memory) :
  exists c l mem1 mem2,
    getConversations userId mem = (Returned c, mem1)
    /\ getLongTerm userId mem1 = (Returned l, mem2)
    /\ getAllMemories userId mem
       = (Returned {| conversations := orEmpty c; longTerm := orEmpty l |},
          mem2)
    /\ stored mem2 = stored mem.
Proof.
  unfold getConversations, getLongTerm.
  destruct (getList_total MEMORY_TYPES_CONVERSATION userId mem)
    as (c & mem1 & Hc & Hs1 & Hav1).
  destruct (getList_total MEMORY_TYPES_LONG_TERM userId mem1)
    as (l & mem2 & Hl & Hs2 & Hav2).
  exists c, l, mem1, mem2.
  split; [exact Hc|]. split; [exact Hl|].
  split; [|congruence].
  unfold getAllMemories, getConversations, getLongTerm.
  destruct (isAvailable mem) eqn:Hav; cbn [negb].
  - unfold tryCatch, bind. rewrite Hc, Hl. reflexivity.
  - unfold getList in Hc. rewrite Hav in Hc. injection Hc as <- <-.
    unfold getList in Hl. rewrite Hav in Hl. injection Hl as <- <-.
    reflexivity.
Qed.

Context (type : string) (ttl : Z) (userId : string).

(** [storeItem] writes at most the key of the user, and leaves the clock
    alone. *)
Lemma storeItem_writes_key (item : Json) (mem : Memory) (ns : KVNamespace) :
  kv mem = Some ns ->
  exists ns',
    kv (snd (storeItem type ttl userId item mem)) = Some ns'
    /\ time ns' = time ns
    /\ (entries ns' = entries ns
        \/ exists v, entries ns'
                     = <[keyOf type userId := (v, time ns + ttl)]> (entries ns)).
Proof.
  intros Hkv. unfold storeItem.
  destruct (isAvailable mem) eqn:Hav; cbn [negb];
    [|exists ns; cbn [snd]; eauto].
  unfold tryCatch, bind.
  rewrite (getList_available type userId mem ns Hav Hkv).
  match goal with |- context [append ?v item] => destruct (append v item) end;
    [|eexists; cbn [snd kv]; split; [reflexivity|]; split; [reflexivity|];
      left; reflexivity].
  unfold onKv, put, request. cbn [kv faults entries time].
  destruct (hd None (tail (faults ns))); cbn [snd kv];
    eexists; (split; [reflexivity|]); (split; [reflexivity|]);
    [left; reflexivity | right; eexists; reflexivity].
Qed.

End MemoryMore.

Lemma keyOf_conversation_inj (u u' : string) :
  keyOf MEMORY_TYPES_CONVERSATION u = keyOf MEMORY_TYPES_CONVERSATION u' ->
  u = u'.
Proof. intros H. injection H as H. exact H. Qed.

Lemma keyOf_long_term_inj (u u' : string) :
  keyOf MEMORY_TYPES_LONG_TERM u = keyOf MEMORY_TYPES_LONG_TERM u' ->
  u = u'.
Proof. intros H. injection H as H. exact H. Qed.

Lemma keyOf_types_apart (u v : string) :
  keyOf MEMORY_TYPES_CONVERSATION u <> keyOf MEMORY_TYPES_LONG_TERM v.
Proof. intros H. discriminate H. Qed.

Lemma live_other_key (key key' : string) (ns ns' : KVNamespace)
    (v : KvText * Z) :
  key' <> key -> time ns' = time ns ->
  entries ns' = entries ns \/ entries ns' = <[key := v]> (entries ns) ->
  live key' ns' = live key' ns.
Proof.
  intros Hne Ht [He | He]; unfold live; rewrite He, Ht; [reflexivity|].
  rewrite lookup_insert_ne by congruence. reflexivity.
Qed.

(** X11: storing a conversation turn or a long-term record for one user
    changes what the store holds for no other user and for no other kind
    of memory: the records are kept apart by their keys. *)
Theorem store_isolated (userId : string) (item : Json) (mem : Memory)
    (ns : KVNamespace) :
  kv mem = Some ns ->
  exists nsC nsL,
    kv (snd (storeConversation userId item mem)) = Some nsC
    /\ kv (snd (storeLongTerm userId item mem)) = Some nsL
    /\ (forall other, other <> userId ->
          live (keyOf MEMORY_TYPES_CONVERSATION other) nsC
          = live (keyOf MEMORY_TYPES_CONVERSATION other) ns
          /\ live (keyOf MEMORY_TYPES_LONG_TERM other) nsL
             = live (keyOf MEMORY_TYPES_LONG_TERM other) ns)
    /\ (forall anyone,
          live (keyOf MEMORY_TYPES_LONG_TERM anyone) nsC
          = live (keyOf MEMORY_TYPES_LONG_TERM anyone) ns
          /\ live (keyOf MEMORY_TYPES_CONVERSATION anyone) nsL
             = live (keyOf MEMORY_TYPES_CONVERSATION anyone) ns).
Proof.
  intros Hkv. unfold storeConversation, storeLongTerm.
  destruct (storeItem_writes_key MEMORY_TYPES_CONVERSATION TTL_CONVERSATION
              userId item mem ns Hkv) as (nsC & HkC & HtC & HeC).
  destruct (storeItem_writes_key MEMORY_TYPES_LONG_TERM TTL_LONG_TERM
              userId item mem ns Hkv) as (nsL & HkL & HtL & HeL).
  exists nsC, nsL. split; [exact HkC|]. split; [exact HkL|].
  assert (HC : forall key', key' <> keyOf MEMORY_TYPES_CONVERSATION userId ->
                 live key' nsC = live key' ns).
  { intros key' Hne. destruct HeC as [He | (v & He)].
    - eapply (live_other_key _ key' ns nsC (EmptyText, 0)); eauto.
    - eapply live_other_key; eauto. }
  assert (HL : forall key', key' <> keyOf MEMORY_TYPES_LONG_TERM userId ->
                 live key' nsL = live key' ns).
  { intros key' Hne. destruct HeL as [He | (v & He)].
    - eapply (live_other_key _ key' ns nsL (EmptyText, 0)); eauto.
    - eapply live_other_key; eauto. }
  split.
  - intros other Hne. split; [apply HC | apply HL]; intros H;
      [apply keyOf_conversation_inj in H | apply keyOf_long_term_inj in H];
      congruence.
  - intros anyone. split; [apply HC | apply HL]; intros H.
    + symmetry in H. exact (keyOf_types_apart _ _ H).
    + exact (keyOf_types_apart _ _ H).
Qed.

Lemma store_isolated_witness :
  exists nsC nsL,
    kv (snd (storeConversation "42" (Sample.turn "user" "again")
               (constructor (Some Sample.kvStore)))) = Some nsC
    /\ kv (snd (storeLongTerm "42" (Sample.turn "user" "again")
                  (constructor (Some Sample.kvStore)))) = Some nsL
    /\ (forall other, other <> "42" ->
          live (keyOf MEMORY_TYPES_CONVERSATION other) nsC
          = live (keyOf MEMORY_TYPES_CONVERSATION other) Sample.kvStore
          /\ live (keyOf MEMORY_TYPES_LONG_TERM other) nsL
             = live (keyOf MEMORY_TYPES_LONG_TERM other) Sample.kvStore)
    /\ (forall anyone,
          live (keyOf MEMORY_TYPES_LONG_TERM anyone) nsC
          = live (keyOf MEMORY_TYPES_LONG_TERM anyone) Sample.kvStore
          /\ live (keyOf MEMORY_TYPES_CONVERSATION anyone) nsL
             = live (keyOf MEMORY_TYPES_CONVERSATION anyone) Sample.kvStore).
Proof.
  apply (store_isolated "42" (Sample.turn "user" "again")
           (constructor (Some Sample.kvStore)) Sample.kvStore).
  reflexivity.
Defined.

Section MemoryLoss.

Context (type : string) (ttl : Z) (userId : string).

Lemma storeItem_overwrites (item : Json) (mem : Memory) (ns : KVNamespace) :
  isAvailable mem = true -> kv mem = Some ns ->
  (exists e, hd None (faults ns) = Some e)
  \/ live (keyOf type userId) ns = Some EmptyText
  \/ live (keyOf type userId) ns = Some Unparsable ->
  hd None (tail (faults ns)) = None ->
  storeItem type ttl userId item mem
  = (Returned tt,
     {| kv := Some {| entries :=
                        <[keyOf type userId :=
                            (Document (JArray [item]), time ns + ttl)]>
                          (entries ns);
                      time := time ns;
                      faults := tail (tail (faults ns)) |};
        isAvailable := true |}).
Proof.
  intros Hav Hkv Hread Hput. unfold storeItem. rewrite Hav. cbn [negb].
  unfold tryCatch, bind.
  rewrite (getList_available type userId mem ns Hav Hkv).
  assert (Hexisting :
    match hd None (faults ns) with
    | Some _ => JArray []
    | None =>
        match live (keyOf type userId) ns with
        | Some (Document v) => v
        | _ => JArray []
        end
    end = JArray []).
  { destruct Hread as [(e & ->)|[-> | ->]]; try reflexivity;
      destruct (hd None (faults ns)); reflexivity. }
  rewrite Hexisting. cbn [append truthyJson spread app].
  unfold onKv, put, request. cbn [kv faults entries time isAvailable].
  rewrite Hput. reflexivity.
Qed.

Lemma storeItem_wedged (item : Json) (mem : Memory) (ns : KVNamespace)
    (v : Json) :
  isAvailable mem = true -> kv mem = Some ns ->
  hd None (faults ns) = None ->
  live (keyOf type userId) ns = Some (Document v) ->
  notIterable v ->
  storeItem type ttl userId item mem
  = (Returned tt,
     {| kv := Some {| entries := entries ns; time := time ns;
                      faults := tail (faults ns) |};
        isAvailable := true |}).
Proof.
  intros Hav Hkv Hget Hlive Hv. unfold storeItem. rewrite Hav. cbn [negb].
  unfold tryCatch, bind.
  rewrite (getList_available type userId mem ns Hav Hkv), Hget, Hlive.
  destruct v as [|b|n|s|items|fields]; simpl in Hv; try contradiction.
  - subst b. reflexivity.
  - unfold append, truthyJson. apply Z.eqb_neq in Hv. rewrite Hv. reflexivity.
  - reflexivity.
Qed.

End MemoryLoss.

(** X12: when the read inside [storeConversation] fails (the [get] throws,
    or the stored text is empty or does not parse) and the [put] goes
    through, the key is overwritten with the one new turn: the turns
    stored before are lost, and the caller is not told. *)
Theorem storeConversation_loses_history (userId : string) (item : Json)
    (ns : KVNamespace) :
  (exists e, hd None (faults ns) = Some e)
  \/ live (keyOf MEMORY_TYPES_CONVERSATION userId) ns = Some EmptyText
  \/ live (keyOf MEMORY_TYPES_CONVERSATION userId) ns = Some Unparsable ->
  hd None (tail (faults ns)) = None ->
  hd None (tail (tail (faults ns))) = None ->
  fst (storeConversation userId item (constructor (Some ns))) = Returned tt
  /\ fst (getConversations userId
            (snd (storeConversation userId item (constructor (Some ns)))))
     = Returned (JArray [item]).
Proof.
  intros Hread Hput Hnext. unfold storeConversation, getConversations.
  rewrite (storeItem_overwrites MEMORY_TYPES_CONVERSATION TTL_CONVERSATION
             userId item (constructor (Some ns)) ns eq_refl eq_refl Hread Hput).
  split; [reflexivity|]. cbn [snd].
  erewrite getList_available; [|reflexivity..].
  cbn [fst faults]. rewrite Hnext.
  unfold live. cbn [entries time]. rewrite lookup_insert_eq.
  destruct (Z.ltb_spec (time ns) (time ns + TTL_CONVERSATION));
    [reflexivity|]. unfold TTL_CONVERSATION in *. lia.
Qed.

Lemma storeConversation_loses_history_witness :
  fst (storeConversation "42" (Sample.turn "user" "again")
         (constructor (Some Sample.kvReadFails))) = Returned tt
  /\ fst (getConversations "42"
            (snd (storeConversation "42" (Sample.turn "user" "again")
                    (constructor (Some Sample.kvReadFails)))))
     = Returned (JArray [Sample.turn "user" "again"]).
Proof.
  apply (storeConversation_loses_history "42" (Sample.turn "user" "again")
           Sample.kvReadFails).
  - left. exists Sample.networkError. reflexivity.
  - reflexivity.
  - reflexivity.
Defined.

(** X13: when the key holds a document that is neither a list nor falsy
    (an object, a non-zero number, [true]), [storeConversation] and
    [storeLongTerm] store nothing and report nothing: spreading the
    document throws inside the [try], so the key keeps its document and no
    turn can be added until it expires. *)
Theorem store_wedged (userId : string) (item : Json) (ns : KVNamespace)
    (v w : Json) :
  hd None (faults ns) = None ->
  (live (keyOf MEMORY_TYPES_CONVERSATION userId) ns = Some (Document v) ->
   notIterable v ->
   fst (storeConversation userId item (constructor (Some ns))) = Returned tt
   /\ stored (snd (storeConversation userId item (constructor (Some ns))))
      = Some (entries ns))
  /\ (live (keyOf MEMORY_TYPES_LONG_TERM userId) ns = Some (Document w) ->
      notIterable w ->
      fst (storeLongTerm userId item (constructor (Some ns))) = Returned tt
      /\ stored (snd (storeLongTerm userId item (constructor (Some ns))))
         = Some (entries ns)).
Proof.
  intros Hget. unfold storeConversation, storeLongTerm. split; intros Hlive Hv.
  - rewrite (storeItem_wedged MEMORY_TYPES_CONVERSATION TTL_CONVERSATION userId
               item (constructor (Some ns)) ns v eq_refl eq_refl Hget Hlive Hv).
    split; reflexivity.
  - rewrite (storeItem_wedged MEMORY_TYPES_LONG_TERM TTL_LONG_TERM userId
               item (constructor (Some ns)) ns w eq_refl eq_refl Hget Hlive Hv).
    split; reflexivity.
Qed.

Lemma store_wedged_witness :
  fst (storeConversation "7" (Sample.turn "user" "hi")
         (constructor (Some Sample.kvObject))) = Returned tt
  /\ stored (snd (storeConversation "7" (Sample.turn "user" "hi")
                    (constructor (Some Sample.kvObject))))
     = Some (entries Sample.kvObject).
Proof.
  apply (proj1 (store_wedged "7" (Sample.turn "user" "hi") Sample.kvObject
                  (Sample.turn "user" "hi") JNull eq_refl)).
  - reflexivity.
  - exact I.
Defined.

(** X14: with the store available and its requests going through, after
    [storeLongTerm(u, r)] a call of [getLongTerm(u)] returns the list
    stored before (the empty list if there was none) followed by [r] for
    30 days, and the empty list from then on; every append renews the
    expiry of the whole list. *)
Theorem storeLongTerm_roundtrip (ns : KVNamespace) (userId : string)
    (previous : list Json) (r : Json) (d : Z) :
  Forall (fun f => f = None) (take 3 (faults ns)) ->
  live (keyOf MEMORY_TYPES_LONG_TERM userId) ns = None /\ previous = []
  \/ live (keyOf MEMORY_TYPES_LONG_TERM userId) ns
     = Some (Document (JArray previous)) ->
  0 <= d ->
  fst (storeLongTerm userId r (constructor (Some ns))) = Returned tt
  /\ (d < 30 * 24 * 60 * 60 ->
      fst (getLongTerm userId
             (later d (snd (storeLongTerm userId r (constructor (Some ns))))))
      = Returned (JArray (previous ++ [r])))
  /\ (30 * 24 * 60 * 60 <= d ->
      fst (getLongTerm userId
             (later d (snd (storeLongTerm userId r (constructor (Some ns))))))
      = Returned (JArray [])).
Proof.
  intros Hok Hprev Hd.
  assert (Hfaults : hd None (faults ns) = None
                    /\ hd None (tail (faults ns)) = None
                    /\ hd None (tail (tail (faults ns))) = None).
  { destruct (faults ns) as [|f1 [|f2 [|f3 rest]]]; simpl in *;
      repeat match goal with
             | H : Forall _ (_ :: _) |- _ => apply Forall_cons in H as [-> H]
             end; repeat split; reflexivity. }
  destruct Hfaults as (Hf1 & Hf2 & Hf3).
  unfold storeLongTerm, getLongTerm.
  rewrite (storeItem_appends MEMORY_TYPES_LONG_TERM TTL_LONG_TERM userId
             r (constructor (Some ns)) ns previous eq_refl eq_refl Hf1 Hf2 Hprev).
  split; [reflexivity|].
  cbn [snd later kv isAvailable fmap option_fmap option_map].
  split; intros Hlive.
  - erewrite getList_available; [|reflexivity..].
    cbn [fst elapse faults]. rewrite Hf3.
    unfold live, elapse. cbn [entries time]. rewrite lookup_insert_eq.
    destruct (Z.ltb_spec (time ns + d) (time ns + TTL_LONG_TERM));
      [reflexivity|]. unfold TTL_LONG_TERM in *. lia.
  - erewrite getList_available; [|reflexivity..].
    cbn [fst elapse faults]. rewrite Hf3.
    unfold live, elapse. cbn [entries time]. rewrite lookup_insert_eq.
    destruct (Z.ltb_spec (time ns + d) (time ns + TTL_LONG_TERM));
      [|reflexivity]. unfold TTL_LONG_TERM in *. lia.
Qed.

Lemma storeLongTerm_roundtrip_witness :
  fst (storeLongTerm "42" (Sample.turn "action" "price")
         (constructor (Some Sample.kvStore))) = Returned tt
  /\ (86400 < 30 * 24 * 60 * 60 ->
      fst (getLongTerm "42"
             (later 86400 (snd (storeLongTerm "42" (Sample.turn "action" "price")
                                  (constructor (Some Sample.kvStore))))))
      = Returned (JArray ([] ++ [Sample.turn "action" "price"])))
  /\ (30 * 24 * 60 * 60 <= 86400 ->
      fst (getLongTerm "42"
             (later 86400 (snd (storeLongTerm "42" (Sample.turn "action" "price")
                                  (constructor (Some Sample.kvStore))))))
      = Returned (JArray [])).
Proof.
  apply (storeLongTerm_roundtrip Sample.kvStore "42" []
           (Sample.turn "action" "price") 86400).
  - constructor.
  - left. split; reflexivity.
  - lia.
Defined.

(** ** Trimming a reply *)

Section Trimming.

Import CoreAgent.

Lemma lastIndexOf_Some (c : N) (s : jsstring) (i : nat) :
  lastIndexOf c s = Some i ->
  exists pre post, s = pre ++ c :: post /\ length pre = i /\ c ∉ post.
Proof.
  revert i. induction s as [|d s IH]; intros i; simpl; [discriminate|].
  destruct (lastIndexOf c s) as [j|] eqn:Hlast.
  - intros [= <-]. destruct (IH j eq_refl) as (pre & post & -> & Hlen & Hnot).
    exists (d :: pre), post. simpl. repeat split; congruence.
  - destruct (N.eqb_spec d c) as [->|Hne]; [|discriminate].
    intros [= <-]. exists [], s. repeat split.
    clear IH. induction s as [|e s IHs]; [apply not_elem_of_nil|].
    simpl in Hlast. destruct (lastIndexOf c s); [discriminate|].
    destruct (N.eqb_spec e c); [discriminate|].
    apply not_elem_of_cons. split; [congruence | apply IHs; reflexivity].
Qed.


End Trimming.


(** ** Commands *)

Section CommandFacts.

Import CoreAgent.

Context {Env : Type} (toKey : JsValue -> string).

(** X16: [handleAction] never throws.  A name that is neither registered
    nor inherited from [Object.prototype] gives [Unknown command /name] and
    touches nothing; an action whose [execute] throws gives the apology and
    nothing is stored; an action that returns has its result returned and
    one record [{type: 'action', action: name, timestamp}] appended to the
    long-term memory of the author. *)
Theorem handleAction_spec (actions : gmap string (Action Env))
    (actionName : string) (text : JsValue) (author : option CastAuthor)
    (d : Desk Env) :
  (exists result d',
     handleAction toKey actions actionName text author d = (Returned result, d'))
  /\ (actions !! actionName = None -> inherited actionName = false ->
      handleAction toKey actions actionName text author d
      = (Returned (textOnly (lit (String.append "Unknown command /" actionName))),
         d))
  /\ (forall action e world',
        actions !! actionName = Some action ->
        execute action text author (world d) = (Threw e, world') ->
        handleAction toKey actions actionName text author d
        = (Returned (textOnly (lit "Sorry, that action failed")),
           {| world := world'; memory := memory d; today := today d |}))
  /\ (forall action result world' a,
        actions !! actionName = Some action ->
        execute action text author (world d) = (Returned result, world') ->
        author = Some a ->
        handleAction toKey actions actionName text author d
        = (Returned result,
           {| world := world';
              memory := snd (Memory.storeLongTerm (toKey (fid a))
                               (actionRecord actionName (today d)) (memory d));
              today := today d |})).
Proof.
  split; [|split; [|split]].
  - unfold handleAction. destruct (actions !! actionName) as [action|].
    + unfold tryCatch, bind, onWorld.
      destruct (execute action text author (world d)) as [[result|e] world'];
        [|unfold ret; eauto].
      destruct author as [a|]; [|unfold throw, ret; eauto].
      unfold ret at 1. unfold onMemory. cbn [memory today world].
      destruct (Memory.storeLongTerm _ _ (memory d)) as [[[]|e] memory'];
        unfold ret; eauto.
    + destruct (inherited actionName); unfold tryCatch, throw, ret; eauto.
  - intros Hnone Hinh. unfold handleAction. rewrite Hnone, Hinh. reflexivity.
  - intros action e world' Hown Hexec. unfold handleAction. rewrite Hown.
    unfold tryCatch, bind, onWorld. rewrite Hexec. reflexivity.
  - intros action result world' a Hown Hexec ->. unfold handleAction.
    rewrite Hown. unfold tryCatch, bind, onWorld. rewrite Hexec.
    unfold ret at 1. unfold onMemory. cbn [memory today world].
    destruct (storeItem_total Memory.MEMORY_TYPES_LONG_TERM Memory.TTL_LONG_TERM
                (toKey (fid a)) (actionRecord actionName (today d)) (memory d))
      as (memory' & Hstore).
    unfold Memory.storeLongTerm. rewrite Hstore. reflexivity.
Qed.

End CommandFacts.

Lemma handleAction_spec_witness :
  CoreAgent.handleAction (fun _ => "1") {[ "greet" := Sample.greet ]} "price"
    (JsString (lit "/price")) (Some {| CoreAgent.fid := JsNumber 1 |})
    {| CoreAgent.world := tt;
       CoreAgent.memory := Memory.constructor (Some Sample.kvStore);
       CoreAgent.today := 1000 |}
  = (Returned (CoreAgent.textOnly (lit "Unknown command /price")),
     {| CoreAgent.world := tt;
        CoreAgent.memory := Memory.constructor (Some Sample.kvStore);
        CoreAgent.today := 1000 |}).
Proof.
  apply (proj1 (proj2 (handleAction_spec (fun _ => "1")
           {[ "greet" := Sample.greet ]} "price" (JsString (lit "/price"))
           (Some {| CoreAgent.fid := JsNumber 1 |})
           {| CoreAgent.world := tt;
              CoreAgent.memory := Memory.constructor (Some Sample.kvStore);
              CoreAgent.today := 1000 |}))).
  - reflexivity.
  - reflexivity.
Defined.

(** ** The memory context *)

Section ContextFacts.

Import CoreAgent.

Context (show : option Json -> jsstring).

Lemma sliceLast_app {A : Type} (n : nat) (older recent : list A) :
  length recent = n -> sliceLast n (older ++ recent) = recent.
Proof.
  intros Hn. unfold sliceLast. rewrite length_app.
  replace (length older + length recent - n)%nat with (length older) by lia.
  apply drop_app_length.
Qed.

Lemma sliceLast_short {A : Type} (n : nat) (items : list A) :
  (length items <= n)%nat -> sliceLast n items = items.
Proof.
  intros Hn. unfold sliceLast.
  replace (length items - n)%nat with 0%nat by lia. reflexivity.
Qed.

(** X17: the context built from the memories uses only the last five
    conversation turns and the last three long-term records: older entries
    change nothing; [prepareContext] and [formatMemoriesForContext] agree
    on every input; and both throw a [TypeError] when the conversations
    read from the store are not a list. *)
Theorem formatMemoriesForContext_window
    (older recent olderL recentL : list Json) (v l : Json) :
  (length recent = 5%nat -> length recentL = 3%nat ->
   formatMemoriesForContext show
     {| conversations := JArray (older ++ recent);
        longTerm := JArray (olderL ++ recentL) |}
   = formatMemoriesForContext show
       {| conversations := JArray recent; longTerm := JArray recentL |})
  /\ prepareContext show {| conversations := v; longTerm := l |}
     = formatMemoriesForContext show {| conversations := v; longTerm := l |}
  /\ ((forall items, v <> JArray items) ->
      exists e, formatMemoriesForContext show
                  {| conversations := v; longTerm := l |} = Threw e
                /\ error_name e = "TypeError").
Proof.
  split; [|split].
  - intros H5 H3. unfold formatMemoriesForContext, lastLines.
    cbn [conversations longTerm].
    rewrite (sliceLast_app 5 older recent H5).
    rewrite (sliceLast_app 3 olderL recentL H3).
    rewrite (sliceLast_short 5 recent) by lia.
    rewrite (sliceLast_short 3 recentL) by lia.
    reflexivity.
  - reflexivity.
  - intros Hv. unfold formatMemoriesForContext, lastLines.
    cbn [conversations].
    destruct v as [|b|n|s|items|fields]; try (eexists; split; reflexivity).
    exfalso. exact (Hv items eq_refl).
Qed.

End ContextFacts.

Lemma formatMemoriesForContext_window_witness :
  CoreAgent.formatMemoriesForContext (fun _ => lit "x")
    {| conversations := JArray ([JNull] ++ replicate 5 (JNumber 1));
       longTerm := JArray ([JNull] ++ replicate 3 (JNumber 2)) |}
  = CoreAgent.formatMemoriesForContext (fun _ => lit "x")
      {| conversations := JArray (replicate 5 (JNumber 1));
         longTerm := JArray (replicate 3 (JNumber 2)) |}.
Proof.
  apply (proj1 (formatMemoriesForContext_window (fun _ => lit "x")
           [JNull] (replicate 5 (JNumber 1)) [JNull] (replicate 3 (JNumber 2))
           JNull JNull)); reflexivity.
Defined.

(** ** Dispatch without a match *)

Section NoMatch.

Import CoreAgent.

Context {Env : Type}.
Context (recallContext : JsValue -> Env -> jsstring * Env).
Context (generateResponse : JsValue -> jsstring -> M Env jsstring).
Context (publishCast : jsstring -> JsValue -> option JsValue -> M Env unit).
Context (remember : JsValue -> JsValue -> jsstring -> Env -> Env).

Lemma bind_ext {S A B : Type} (c : M S A) (k1 k2 : A -> M S B) (s : S) :
  (forall a s', k1 a s' = k2 a s') -> bind c k1 s = bind c k2 s.
Proof.
  intros Hk. unfold bind. destruct (c s) as [[a|e] s']; [apply Hk | reflexivity].
Qed.

Lemma dispatch_no_match (userMessage parentHash : JsValue)
    (author : option CastAuthor) (actions : list (Action Env)) :
  Forall (fun a => matches userMessage a = false) actions ->
  forall (context : jsstring) (st : State Env),
    dispatch publishCast actions userMessage parentHash author context st
    = (Returned (Unanswered context), st).
Proof.
  induction 1 as [|action rest Hno _ IH]; intros context st; [reflexivity|].
  cbn [dispatch]. rewrite Hno. apply IH.
Qed.

(** X18: actions that do not match the text, among them every action that
    keeps the [shouldExecute] of the base class or has none, are never
    executed and have no influence: [processMessage] does what it does
    with an empty registry, which is to throw when the author has no FID
    and otherwise to generate, publish and remember a response. *)
Theorem processMessage_no_match (actions : list (Action Env))
    (message : Cast) (st : State Env) :
  (forall name, matches (text message) (baseAction Env name) = false)
  /\ (Forall (fun a => matches (text message) a = false) actions ->
      processMessage recallContext generateResponse publishCast remember
        actions message st
      = processMessage recallContext generateResponse publishCast remember
          [] message st
      /\ executed (snd (processMessage recallContext generateResponse
                          publishCast remember actions message st))
         = executed st).
Proof.
  split; [reflexivity|]. intros Hno.
  assert (Hsame :
    processMessage recallContext generateResponse publishCast remember
      actions message st
    = processMessage recallContext generateResponse publishCast remember
        [] message st).
  { unfold processMessage.
    destruct (negb (truthy _)); [reflexivity|].
    apply bind_ext. intros context st1. unfold bind at 1 3.
    rewrite (dispatch_no_match _ _ _ actions Hno). reflexivity. }
  split; [exact Hsame|]. rewrite Hsame.
  unfold processMessage. destruct (negb (truthy _)); [reflexivity|].
  apply quiet_bind; [apply quiet_onEnv|]. intros context.
  apply quiet_bind; [intros st1; reflexivity|]. intros [reply|context'].
  - apply quiet_ret.
  - apply quiet_bind; [apply quiet_onEnv|]. intros response.
    apply quiet_bind; [apply quiet_onEnv|]. intros _.
    apply quiet_bind; [apply quiet_onEnv|]. intros _.
    apply quiet_ret.
Qed.

End NoMatch.

Lemma processMessage_no_match_witness :
  CoreAgent.processMessage Sample.noContext Sample.sayOk Sample.publish
    Sample.forget [CoreAgent.baseAction unit "base"] Sample.cast Sample.fresh
  = CoreAgent.processMessage Sample.noContext Sample.sayOk Sample.publish
      Sample.forget [] Sample.cast Sample.fresh
  /\ CoreAgent.executed
       (snd (CoreAgent.processMessage Sample.noContext Sample.sayOk
               Sample.publish Sample.forget [CoreAgent.baseAction unit "base"]
               Sample.cast Sample.fresh))
     = CoreAgent.executed Sample.fresh.
Proof.
  apply (proj2 (processMessage_no_match Sample.noContext Sample.sayOk
                  Sample.publish Sample.forget
                  [CoreAgent.baseAction unit "base"] Sample.cast Sample.fresh)).
  repeat constructor.
Defined.

(** ** The history cache *)

Lemma append_cancel (prefix a b : string) :
  String.append prefix a = String.append prefix b -> a = b.
Proof.
  induction prefix as [|c prefix IH]; intros H; [exact H|].
  change (String c (String.append prefix a)
          = String c (String.append prefix b)) in H.
  injection H as H. exact (IH H).
Qed.

Section HistoryFacts.

Context {Env Value : Type} (getConversations : string -> M Env Value).

(** X19: once [getHistory] has returned a history for a conversation, every
    later call for that conversation returns the same history without
    asking the memory store, whatever has been stored since; a read that
    throws leaves the cache as it was; and the histories of different
    conversations are cached apart. *)
Theorem getHistory_cached (conversationId : string) (c : Cached Env Value) :
  (forall history c1,
     getHistory getConversations conversationId c = (Returned history, c1) ->
     forall store',
       getHistory getConversations conversationId
         {| memoryCache := memoryCache c1; store := store' |}
       = (Returned history,
          {| memoryCache := memoryCache c1; store := store' |}))
  /\ (forall e c1,
        getHistory getConversations conversationId c = (Threw e, c1) ->
        memoryCache c1 = memoryCache c)
  /\ (forall other r c1,
        other <> conversationId ->
        getHistory getConversations conversationId c = (r, c1) ->
        memoryCache c1 !! String.append "history_" other
        = memoryCache c !! String.append "history_" other).
Proof.
  unfold getHistory. split; [|split].
  - intros history c1 Hrun store'. cbn [memoryCache store].
    destruct (memoryCache c !! String.append "history_" conversationId)
      as [cached|] eqn:Hhit.
    + injection Hrun as <- <-. rewrite Hhit. reflexivity.
    + destruct (getConversations conversationId (store c)) as [[h|e] st'];
        [|discriminate].
      injection Hrun as <- <-. cbn [memoryCache].
      rewrite lookup_insert_eq. reflexivity.
  - intros e c1 Hrun.
    destruct (memoryCache c !! String.append "history_" conversationId);
      [discriminate|].
    destruct (getConversations conversationId (store c)) as [[h|e'] st'];
      [discriminate|].
    injection Hrun as _ <-. reflexivity.
  - intros other r c1 Hne Hrun.
    destruct (memoryCache c !! String.append "history_" conversationId);
      [injection Hrun as _ <-; reflexivity|].
    destruct (getConversations conversationId (store c)) as [[h|e'] st'];
      injection Hrun as _ <-; cbn [memoryCache]; [|reflexivity].
    apply lookup_insert_ne. intros H.
    apply (append_cancel "history_") in H. congruence.
Qed.

End HistoryFacts.

Lemma getHistory_cached_witness :
  getHistory (fun _ n => (Returned (lit "hi"), S n)) "c1"
    {| memoryCache := {[ "history_c1" := lit "hi" ]}; store := 5%nat |}
  = (Returned (lit "hi"),
     {| memoryCache := {[ "history_c1" := lit "hi" ]}; store := 5%nat |}).
Proof.
  exact (proj1 (getHistory_cached (fun _ n => (Returned (lit "hi"), S n)) "c1"
                  {| memoryCache := {[ "history_c1" := lit "hi" ]};
                     store := 0%nat |})
           (lit "hi")
           {| memoryCache := {[ "history_c1" := lit "hi" ]}; store := 0%nat |}
           eq_refl 5%nat).
Defined.

(** ** The worker entry point *)

Section FetchFacts.

Import Worker.

Context {World AgentObject : Type}.
Context (newAgent : M World AgentObject).
Context (processMessage : AgentObject -> option Json -> M World Json).


End FetchFacts.


(** ** Memory store: availability *)

Section Availability.

Lemma getAllMemories_frame (userId : string) (mem : Memory) :
  exists r mem', getAllMemories userId mem = (Returned r, mem')
                 /\ stored mem' = stored mem
                 /\ isAvailable mem' = isAvailable mem.
Proof.
  unfold getAllMemories.
  destruct (isAvailable mem) eqn:Hav; cbn [negb]; [|eauto].
  unfold tryCatch, bind, getConversations, getLongTerm.
  destruct (getList_total MEMORY_TYPES_CONVERSATION userId mem)
    as (c & mem1 & -> & Hs1 & Hav1).
  destruct (getList_total MEMORY_TYPES_LONG_TERM userId mem1)
    as (l & mem2 & -> & Hs2 & Hav2).
  do 2 eexists. split; [reflexivity|]. split; congruence.
Qed.

Lemma flagged_same (mem mem' : Memory) :
  isAvailable mem' = isAvailable mem -> stored mem' = stored mem ->
  flagged mem -> flagged mem'.
Proof.
  unfold flagged, stored. intros -> Hs ->.
  destruct (kv mem), (kv mem'); simpl in Hs; congruence.
Qed.

Lemma storeItem_flagged (type : string) (ttl : Z) (userId : string)
    (item : Json) (mem : Memory) :
  flagged mem -> flagged (snd (storeItem type ttl userId item mem)).
Proof.
  intros Hflag. destruct (kv mem) as [ns|] eqn:Hkv.
  - destruct (storeItem_writes_key type ttl userId item mem ns Hkv)
      as (ns' & Hkv' & _).
    unfold flagged in *. rewrite Hkv in Hflag. rewrite Hkv'.
    unfold storeItem in *. rewrite Hflag in *. cbn [negb] in *.
    unfold tryCatch, bind in *.
    rewrite (getList_available type userId mem ns Hflag Hkv) in *.
    match goal with |- context [append ?v item] => destruct (append v item) end;
      [|reflexivity].
    unfold onKv. cbn [kv isAvailable].
    destruct (put _ _ _ _) as [[[]|e] ns2]; reflexivity.
  - unfold flagged in Hflag. rewrite Hkv in Hflag.
    unfold storeItem. rewrite Hflag. cbn [negb snd].
    unfold flagged. rewrite Hkv. exact Hflag.
Qed.

(** X21: whether the store is available is decided when the [Memory]
    object is made, by whether there is a binding, and no read or write
    changes it afterwards: a [Memory] made without a binding answers every
    read with the empty list and stores nothing, for good. *)
Theorem memory_availability_fixed (binding : option KVNamespace)
    (userId : string) (item : Json) (mem : Memory) :
  flagged (constructor binding)
  /\ (flagged mem ->
      flagged (snd (getConversations userId mem))
      /\ flagged (snd (getLongTerm userId mem))
      /\ flagged (snd (getAllMemories userId mem))
      /\ flagged (snd (storeConversation userId item mem))
      /\ flagged (snd (storeLongTerm userId item mem)))
  /\ (kv mem = None -> flagged mem ->
      getConversations userId mem = (Returned (JArray []), mem)
      /\ getLongTerm userId mem = (Returned (JArray []), mem)
      /\ storeConversation userId item mem = (Returned tt, mem)
      /\ storeLongTerm userId item mem = (Returned tt, mem)).
Proof.
  split; [destruct binding; reflexivity|]. split.
  - intros Hflag.
    assert (Hget : forall type, flagged (snd (getList type userId mem))).
    { intros type.
      destruct (getList_total type userId mem) as (v & mem' & -> & Hs & Hav).
      exact (flagged_same mem mem' Hav Hs Hflag). }
    split; [apply Hget|]. split; [apply Hget|].
    split; [|split; apply storeItem_flagged, Hflag].
    destruct (getAllMemories_frame userId mem) as (r & mem' & -> & Hs & Hav).
    exact (flagged_same mem mem' Hav Hs Hflag).
  - intros Hkv Hflag. unfold flagged in Hflag. rewrite Hkv in Hflag.
    unfold getConversations, getLongTerm, storeConversation, storeLongTerm,
      getList, storeItem.
    rewrite Hflag. repeat split.
Qed.

End Availability.

Lemma memory_availability_fixed_witness :
  getConversations "42" (constructor None)
  = (Returned (JArray []), constructor None)
  /\ getLongTerm "42" (constructor None)
     = (Returned (JArray []), constructor None)
  /\ storeConversation "42" JNull (constructor None)
     = (Returned tt, constructor None)
  /\ storeLongTerm "42" JNull (constructor None)
     = (Returned tt, constructor None).
Proof.
  apply (proj2 (proj2 (memory_availability_fixed None "42" JNull
                         (constructor None)))); reflexivity.
Defined.
